(** * The email summarizer worker (src/worker.ts)

    A shallow embedding of the four handlers the worker exports that carry
    the ingestion-to-index pipeline and the summary assembly:
    [email], [generateSummary], [fetch] and [queue].

    The handlers are [async] functions that talk to four bindings of their
    [Env] (AI, DB, QUEUE, VECTORIZE_INDEX).  Each handler is embedded as a
    computation in a state-and-exception monad over a [World] that holds
    what the bindings hold (the messages table, the vector index, the
    queue backlog), the console, and the list of binding calls made so
    far.  Whether a binding call answers or throws is decided by the
    [Env], which may look at the whole [World].

    The fifth export, [scheduled], wraps [generateSummary] in a POST to
    the mail API; it runs beside the list of the requests made. *)

From Stdlib Require Import ZArith List String Ascii Bool Lia.
From Stdlib Require Import DecimalString Floats.
Import ListNotations.

#[local] Set Warnings "-register-all".

Local Open Scope bool_scope.
Local Open Scope list_scope.
Local Open Scope string_scope.

(* ================================================================== *)
(** ** JavaScript values *)
(* ================================================================== *)

(** The values [JSON.parse] can give, and [undefined].  A Number is kept
    as the text [Number::toString] prints for it, which is all the
    handlers ever do with one.  Strings are sequences of 8-bit code
    units.  An object is the list of its properties in insertion order;
    a property read takes the first with the key. *)
Inductive JsValue : Type :=
| JUndefined
| JNull
| JBool (b : bool)
| JNum (printed : string)
| JStr (s : string)
| JArr (items : list JsValue)
| JObj (props : list (string * JsValue)).

(** What a handler can throw, or a promise it awaits can reject with. *)
Inductive JsError : Type :=
| SyntaxError (msg : string)
| TypeError (msg : string)
| Error (msg : string).

Definition error_message (e : JsError) : string :=
  match e with SyntaxError m | TypeError m | Error m => m end.

(** The settled state of a promise. *)
Inductive Outcome (A : Type) : Type :=
| Fulfilled (a : A)
| Rejected (e : JsError).
Arguments Fulfilled {A} a.
Arguments Rejected {A} e.

Definition dquote : ascii := "034"%char.
Definition newline : string := String "010"%char EmptyString.

(** [ToBoolean]: the falsy values are undefined, null, false, 0, NaN and
    the empty string. *)
Definition ToBoolean (v : JsValue) : bool :=
  match v with
  | JUndefined | JNull => false
  | JBool b => b
  | JNum p => negb (p =? "0") && negb (p =? "NaN")
  | JStr s => negb (s =? EmptyString)
  | JArr _ | JObj _ => true
  end.

(** [a || b] *)
Definition js_or (a b : JsValue) : JsValue :=
  if ToBoolean a then a else b.

(** An optional property of an object: absent reads as undefined. *)
Definition optional (o : option string) : JsValue :=
  match o with Some s => JStr s | None => JUndefined end.

(** [ToString], where it returns (see [converts]).  An array prints as
    its elements joined by commas, null and undefined elements as
    nothing. *)
Fixpoint ToString (v : JsValue) : string :=
  match v with
  | JUndefined => "undefined"
  | JNull => "null"
  | JBool true => "true"
  | JBool false => "false"
  | JNum p => p
  | JStr s => s
  | JArr items =>
      (fix joined (l : list JsValue) : string :=
         match l with
         | [] => EmptyString
         | x :: rest =>
             let shown :=
               match x with
               | JUndefined | JNull => EmptyString
               | _ => ToString x
               end in
             match rest with
             | [] => shown
             | _ :: _ => shown ++ "," ++ joined rest
             end
         end) items
  | JObj _ => "[object Object]"
  end.

(** Whether [ToString] returns.  It throws a TypeError on an object
    with an own [toString] property: a parsed value is never callable,
    so that property is passed over, and [valueOf] gives back the object
    or is not callable either.  An array converts through [join], which
    converts each element other than null and undefined. *)
Fixpoint converts (v : JsValue) : bool :=
  match v with
  | JUndefined | JNull | JBool _ | JNum _ | JStr _ => true
  | JArr items =>
      (fix all (l : list JsValue) : bool :=
         match l with
         | [] => true
         | x :: rest =>
             match x with
             | JUndefined | JNull => true
             | _ => converts x
             end && all rest
         end) items
  | JObj props => negb (existsb (fun p => fst p =? "toString") props)
  end.

(** [Array.prototype.join(sep)] *)
Fixpoint Array_join (sep : string) (l : list JsValue) : string :=
  match l with
  | [] => EmptyString
  | x :: rest =>
      let shown :=
        match x with
        | JUndefined | JNull => EmptyString
        | _ => ToString x
        end in
      match rest with
      | [] => shown
      | _ :: _ => shown ++ sep ++ Array_join sep rest
      end
  end.

(** [String(n)] for an integer Number. *)
Definition String_of_number (n : Z) : string :=
  NilZero.string_of_int (Z.to_int n).

(** Property read [v.k] on a value that is neither null nor undefined:
    own properties of an object; nothing else here has a [type], [body],
    [id] or [message] property. *)
Fixpoint lookup (k : string) (props : list (string * JsValue)) : JsValue :=
  match props with
  | [] => JUndefined
  | (k', v) :: rest => if k' =? k then v else lookup k rest
  end.

Definition Get (v : JsValue) (k : string) : JsValue :=
  match v with
  | JObj props => lookup k props
  | _ => JUndefined
  end.

(** [a === b] against a string literal. *)
Definition strict_equals_string (v : JsValue) (lit : string) : bool :=
  match v with
  | JStr s => s =? lit
  | _ => false
  end.

(* ------------------------------------------------------------------ *)
(** *** JSON.stringify *)

Definition hex_digit (n : nat) : ascii :=
  ascii_of_nat (if Nat.ltb n 10 then 48 + n else 87 + n).

(** One code unit inside a JSON string literal. *)
Definition quote_unit (c : ascii) : string :=
  let n := nat_of_ascii c in
  if Nat.eqb n 8 then "\b"
  else if Nat.eqb n 9 then "\t"
  else if Nat.eqb n 10 then "\n"
  else if Nat.eqb n 12 then "\f"
  else if Nat.eqb n 13 then "\r"
  else if Nat.eqb n 34 then String "\"%char (String dquote EmptyString)
  else if Nat.eqb n 92 then "\\"
  else if Nat.ltb n 32 then
    "\u00" ++ String (hex_digit (n / 16)) (String (hex_digit (n mod 16)) EmptyString)
  else String c EmptyString.

Fixpoint quote_units (s : string) : string :=
  match s with
  | EmptyString => EmptyString
  | String c rest => quote_unit c ++ quote_units rest
  end.

Definition QuoteJSONString (s : string) : string :=
  String dquote (quote_units s ++ String dquote EmptyString).

Fixpoint comma_separated (l : list string) : string :=
  match l with
  | [] => EmptyString
  | x :: rest =>
      match rest with
      | [] => x
      | _ :: _ => x ++ "," ++ comma_separated rest
      end
  end.

(** [SerializeJSONProperty]: no text for undefined; an object leaves out
    the properties whose value has no text; an array writes null for
    them. *)
Fixpoint SerializeJSONProperty (v : JsValue) : option string :=
  match v with
  | JUndefined => None
  | JNull => Some "null"
  | JBool true => Some "true"
  | JBool false => Some "false"
  | JNum p => Some p
  | JStr s => Some (QuoteJSONString s)
  | JArr items =>
      Some ("[" ++ comma_separated
              ((fix elements (l : list JsValue) : list string :=
                  match l with
                  | [] => []
                  | x :: rest =>
                      match SerializeJSONProperty x with
                      | Some t => t
                      | None => "null"
                      end :: elements rest
                  end) items) ++ "]")
  | JObj props =>
      Some ("{" ++ comma_separated
              ((fix members (l : list (string * JsValue)) : list string :=
                  match l with
                  | [] => []
                  | (k, x) :: rest =>
                      match SerializeJSONProperty x with
                      | Some t => (QuoteJSONString k ++ ":" ++ t) :: members rest
                      | None => members rest
                      end
                  end) props) ++ "}")
  end.

(** The members an object literal serializes to. *)
Fixpoint members (props : list (string * JsValue)) : list string :=
  match props with
  | [] => []
  | (k, x) :: rest =>
      match SerializeJSONProperty x with
      | Some t => (QuoteJSONString k ++ ":" ++ t) :: members rest
      | None => members rest
      end
  end.

(** [JSON.stringify] of an object literal: always a string. *)
Definition JSON_stringify (props : list (string * JsValue)) : string :=
  "{" ++ comma_separated (members props) ++ "}".

Lemma JSON_stringify_serializes props :
  SerializeJSONProperty (JObj props) = Some (JSON_stringify props).
Proof. reflexivity. Qed.

(** The text of [{ type: 'email', body: 'Meeting at 3pm' }]. *)
Example stringify_email :
  JSON_stringify [("type", JStr "email"); ("body", JStr "Meeting at 3pm")]
  = String "{" (String dquote ("type" ++ String dquote (":" ++ String dquote ("email"
      ++ String dquote ("," ++ String dquote ("body" ++ String dquote (":"
      ++ String dquote ("Meeting at 3pm" ++ String dquote "}")))))))).
Proof. reflexivity. Qed.

(** An undefined property is left out. *)
Example stringify_undefined_body :
  JSON_stringify [("type", JStr "email"); ("body", JUndefined)]
  = String "{" (String dquote ("type" ++ String dquote (":" ++ String dquote ("email"
      ++ String dquote "}")))).
Proof. reflexivity. Qed.

(** Quotes, backslashes and control characters are escaped. *)
Example quote_escapes :
  QuoteJSONString (String "009"%char (String dquote (String "001"%char "\")))
  = String dquote ("\t\" ++ String dquote ("\u0001\\" ++ String dquote EmptyString)).
Proof. reflexivity. Qed.

Example string_of_number_42 : String_of_number 42 = "42".
Proof. reflexivity. Qed.

(* ================================================================== *)
(** ** The bindings and the world behind them *)
(* ================================================================== *)

(** [D1Result<T>]: what a prepared statement gives when it is run. *)
Record D1Result (T : Type) : Type := {
  success : bool;
  results : list T
}.
Arguments success {T} _.
Arguments results {T} _.

(** A row of the table [messages].  [created_at] is the instant of the
    insert, in milliseconds since the epoch. *)
Record StoredMessage : Type := {
  id : Z;
  message : JsValue;
  created_at : Z
}.

(** A row of [RETURNING id]. *)
Record Returning : Type := { returned_id : Z }.

(** An embedding vector: a sequence of Numbers. *)
Definition Vector : Type := list float.

(** [{ id, values }], the element of the array given to [upsert];
    [values] is undefined when the inference output has no first
    vector. *)
Record VectorizeVector : Type := {
  vector_id : string;
  values : option Vector
}.

(** [{ role, content }], a turn of the chat prompt. *)
Record Turn : Type := { role : string; content : string }.

(** The output of the embedding model, [{ data }]. *)
Record EmbeddingOutput : Type := { data : list Vector }.

(** The output of the chat model, [{ response }]. *)
Record ChatOutput : Type := { response : string }.

(** The two queries the worker prepares.  The literal of the second is
    [oneDayAgo.toISOString()]; it is kept as the instant it denotes. *)
Inductive Select : Type :=
| SelectMessages
    (* SELECT * FROM messages *)
| SelectMessagesAfter (instant : Z)
    (* SELECT * FROM messages WHERE created_at > '<instant>' *).

(** The lines the worker writes to the console, each the template
    literal with the value it interpolates. *)
Inductive LogLine : Type :=
| UnknownMessageType (type : JsValue)   (* `Unknown message type: ${type}` *)
| FailedToInsert (body : JsValue)       (* `Failed to insert message: ${body}` *).

(** A call of a binding, with what it answered. *)
Inductive Call : Type :=
| CallInsert (body : JsValue) (reply : Outcome (D1Result Returning))
| CallSelect (query : Select) (reply : Outcome (D1Result StoredMessage))
| CallEmbed (text : list JsValue) (reply : Outcome EmbeddingOutput)
| CallChat (messages : list Turn) (reply : Outcome ChatOutput)
| CallUpsert (vectors : list VectorizeVector) (reply : Outcome unit)
| CallSend (payload : string) (reply : Outcome unit).

Record World : Type := {
  clock : Z;                              (* new Date().getTime() *)
  table_messages : list StoredMessage;    (* DB, table messages *)
  index_vectors : list VectorizeVector;   (* VECTORIZE_INDEX *)
  queue_backlog : list string;            (* QUEUE *)
  console : list LogLine;
  calls : list Call
}.

Definition record_call (c : Call) (w : World) : World :=
  {| clock := clock w; table_messages := table_messages w;
     index_vectors := index_vectors w; queue_backlog := queue_backlog w;
     console := console w; calls := calls w ++ [c] |}.

Definition write_console (l : LogLine) (w : World) : World :=
  {| clock := clock w; table_messages := table_messages w;
     index_vectors := index_vectors w; queue_backlog := queue_backlog w;
     console := console w ++ [l]; calls := calls w |}.

Definition store_row (r : StoredMessage) (w : World) : World :=
  {| clock := clock w; table_messages := table_messages w ++ [r];
     index_vectors := index_vectors w; queue_backlog := queue_backlog w;
     console := console w; calls := calls w |}.

(** Modelled from the spec: an upsert is an insert-or-update keyed by
    the identifier. *)
Definition put_vector (v : VectorizeVector) (index : list VectorizeVector)
  : list VectorizeVector :=
  filter (fun old => negb (vector_id old =? vector_id v)) index ++ [v].

Definition index_all (vs : list VectorizeVector) (w : World) : World :=
  {| clock := clock w; table_messages := table_messages w;
     index_vectors := fold_left (fun index v => put_vector v index) vs (index_vectors w);
     queue_backlog := queue_backlog w;
     console := console w; calls := calls w |}.

Definition push_backlog (payload : string) (w : World) : World :=
  {| clock := clock w; table_messages := table_messages w;
     index_vectors := index_vectors w; queue_backlog := queue_backlog w ++ [payload];
     console := console w; calls := calls w |}.

(** How the store answers an insert.  Modelled from the spec: the
    insert-and-return-id is atomic, a row is written exactly when the
    store reports success. *)
Inductive InsertReply : Type :=
| InsertCommits                (* the row is written; success, with its id *)
| InsertReportsFailure         (* nothing written; success is false *)
| InsertThrows (e : JsError)   (* nothing written; run() rejects *).

(** The bindings.  Each field says, in a given world, whether the call
    answers or throws (and, for the inference models, what it answers);
    what an answered call does to the world is fixed below. *)
Record D1Database : Type := {
  insert_reply : World -> JsValue -> InsertReply;
  select_fault : World -> Select -> option JsError
}.

Record Ai : Type := {
  (* run(`@cf/baai/bge-base-en-v1.5`, { text }) *)
  embed_reply : World -> list JsValue -> Outcome EmbeddingOutput;
  (* run(`@cf/meta/llama-2-7b-chat-int8`, { messages }) *)
  chat_reply : World -> list Turn -> Outcome ChatOutput
}.

Record Queue : Type := {
  send_fault : World -> string -> option JsError
}.

Record VectorizeIndex : Type := {
  upsert_fault : World -> list VectorizeVector -> option JsError
}.

Record Env : Type := {
  AI : Ai;
  DB : D1Database;
  QUEUE : Queue;
  VECTORIZE_INDEX : VectorizeIndex
}.

(** What the handlers take from the runtime and from postal-mime. *)
Record Email : Type := {
  text : option string;
  html : option string
}.

Class Runtime : Type := {
  JSON_parse : string -> Outcome JsValue;
  PostalMime_parse : string -> Outcome Email;
  TextDecoder_decode : list Byte.byte -> string
}.

(* ================================================================== *)
(** ** Asynchronous computations *)
(* ================================================================== *)

(** An [async] body: it runs in a world and settles, fulfilled or
    rejected, in the world it leaves behind. *)
Definition Task (A : Type) : Type := World -> Outcome A * World.

Definition ret {A : Type} (a : A) : Task A := fun w => (Fulfilled a, w).

Definition throw {A : Type} (e : JsError) : Task A := fun w => (Rejected e, w).

Definition bind {A B : Type} (m : Task A) (k : A -> Task B) : Task B :=
  fun w =>
    match m w with
    | (Fulfilled a, w') => k a w'
    | (Rejected e, w') => (Rejected e, w')
    end.

(** [try { m } catch (err) { handler err }] *)
Definition try_catch {A : Type} (m : Task A) (handler : JsError -> Task A) : Task A :=
  fun w =>
    match m w with
    | (Fulfilled a, w') => (Fulfilled a, w')
    | (Rejected e, w') => handler e w'
    end.

(** [await] of a call that does not touch the world. *)
Definition settle {A : Type} (o : Outcome A) : Task A := fun w => (o, w).

Declare Scope task_scope.
Delimit Scope task_scope with task.
Notation "x <- m ;; k" := (bind m (fun x => k))
  (at level 61, m at next level, right associativity) : task_scope.
Notation "m ;; k" := (bind m (fun _ => k))
  (at level 61, right associativity) : task_scope.
Local Open Scope task_scope.

(* ------------------------------------------------------------------ *)
(** *** The binding calls *)

(** Modelled from the spec: the schema of the table [messages] is not in
    the sources.  [id] is a unique key the store generates (here one
    more than the largest), [created_at] is the instant of the insert. *)
Definition next_id (rows : list StoredMessage) : Z :=
  1 + fold_right (fun r m => Z.max (id r) m) 0%Z rows.

(** Modelled from the spec: what the store selects, of its query
    surface select-all and select-where-created_at-after(timestamp). *)
Definition select_rows (query : Select) (rows : list StoredMessage)
  : list StoredMessage :=
  match query with
  | SelectMessages => rows
  | SelectMessagesAfter instant => filter (fun r => (instant <? created_at r)%Z) rows
  end.

(** [env.DB.prepare(INSERT ... RETURNING id).bind(body).run()] *)
Definition D1_insert (env : Env) (body : JsValue) : Task (D1Result Returning) :=
  fun w =>
    match insert_reply (DB env) w body with
    | InsertCommits =>
        let row := {| id := next_id (table_messages w); message := body;
                      created_at := clock w |} in
        let reply := {| success := true; results := [ {| returned_id := id row |} ] |} in
        (Fulfilled reply, record_call (CallInsert body (Fulfilled reply)) (store_row row w))
    | InsertReportsFailure =>
        let reply := {| success := false; results := [] |} in
        (Fulfilled reply, record_call (CallInsert body (Fulfilled reply)) w)
    | InsertThrows e =>
        (Rejected e, record_call (CallInsert body (Rejected e)) w)
    end.

(** [env.DB.prepare(SELECT ...).all()] and [.run()] *)
Definition D1_select (env : Env) (query : Select) : Task (D1Result StoredMessage) :=
  fun w =>
    let reply :=
      match select_fault (DB env) w query with
      | None => Fulfilled {| success := true;
                             results := select_rows query (table_messages w) |}
      | Some e => Rejected e
      end in
    (reply, record_call (CallSelect query reply) w).

(** [new Ai(env.AI).run(`@cf/baai/bge-base-en-v1.5`, { text })] *)
Definition Ai_run_embedding (env : Env) (text : list JsValue) : Task EmbeddingOutput :=
  fun w =>
    let reply := embed_reply (AI env) w text in
    (reply, record_call (CallEmbed text reply) w).

(** [new Ai(env.AI).run(`@cf/meta/llama-2-7b-chat-int8`, { messages })] *)
Definition Ai_run_chat (env : Env) (messages : list Turn) : Task ChatOutput :=
  fun w =>
    let reply := chat_reply (AI env) w messages in
    (reply, record_call (CallChat messages reply) w).

(** [env.VECTORIZE_INDEX.upsert(vectors)] *)
Definition Vectorize_upsert (env : Env) (vectors : list VectorizeVector) : Task unit :=
  fun w =>
    match upsert_fault (VECTORIZE_INDEX env) w vectors with
    | None => (Fulfilled tt, record_call (CallUpsert vectors (Fulfilled tt)) (index_all vectors w))
    | Some e => (Rejected e, record_call (CallUpsert vectors (Rejected e)) w)
    end.

(** [env.QUEUE.send(payload)] *)
Definition Queue_send (env : Env) (payload : string) : Task unit :=
  fun w =>
    match send_fault (QUEUE env) w payload with
    | None => (Fulfilled tt, record_call (CallSend payload (Fulfilled tt)) (push_backlog payload w))
    | Some e => (Rejected e, record_call (CallSend payload (Rejected e)) w)
    end.

(** The TypeError of a [ToString] that does not return. *)
Definition conversion_error : JsError :=
  TypeError "Cannot convert object to primitive value".

(** A template literal with one substitution: the value substituted is
    converted with [ToString], which may throw, and the line is the
    template with that value. *)
Definition template_literal (line : LogLine) (substituted : JsValue) : Task LogLine :=
  fun w =>
    if converts substituted then (Fulfilled line, w)
    else (Rejected conversion_error, w).

(** [console.log(line)] *)
Definition console_log (line : LogLine) : Task unit :=
  fun w => (Fulfilled tt, write_console line w).

(** [new Date().getTime()] *)
Definition Date_now : Task Z := fun w => (Fulfilled (clock w), w).

(* ================================================================== *)
(** ** The handlers *)
(* ================================================================== *)

(** [message.raw]: the chunks the reader gives before it is done, and
    the error it ends with if the stream fails. *)
Record ReadableStream : Type := {
  chunks : list (list Byte.byte);
  stream_error : option JsError
}.

Record EmailMessage : Type := { raw : ReadableStream }.

(** [batch.messages], each with its [body]. *)
Record Message : Type := { body : string }.
Record MessageBatch : Type := { messages : list Message }.

(** The request, as the path name of its URL. *)
Record Request : Type := { pathname : string }.

Inductive Response : Type :=
| Response_of_rows (emails : list StoredMessage) (* new Response(JSON.stringify(emails)) *)
| Response_of_text (body : string)               (* new Response(err.message) *)
| Response_of_summary (summary : string)         (* Response.json({ summary }) *).

Section Handlers.
Context {runtime : Runtime}.

(** The read loop of [email]. *)
Fixpoint read_all (remaining : list (list Byte.byte)) (ending : option JsError)
    (body : string) : Task string :=
  match remaining with
  | [] =>
      match ending with
      | None => ret body                       (* done: break *)
      | Some e => throw e
      end
  | value :: rest => read_all rest ending (body ++ TextDecoder_decode value)
  end.

(** The object literal [{ type: 'email', body: emailBody }]. *)
Definition QueuedMessage (emailBody : JsValue) : list (string * JsValue) :=
  [("type", JStr "email"); ("body", emailBody)].

Definition email (message : EmailMessage) (env : Env) : Task unit :=
  body <- read_all (chunks (raw message)) (stream_error (raw message)) EmptyString ;;
  parsedEmail <- settle (PostalMime_parse body) ;;
  let emailBody := js_or (optional (text parsedEmail)) (optional (html parsedEmail)) in
  Queue_send env (JSON_stringify (QueuedMessage emailBody)).

(** The five turns of the prompt; [emails] are the rows read. *)
Definition prompt (emails : list StoredMessage) : list Turn :=
  [ {| role := "system"; content := "You are an AI that summarizes emails." |};
    {| role := "system";
       content := "You will receive a list of emails - take the details of each email and summarize them." |};
    {| role := "system";
       content := "Don't repeat the prompt back to me, just return the summary." |};
    {| role := "system";
       content := "Here are the emails for today: "
                  ++ Array_join newline (map message emails) |};
    {| role := "user"; content := "Summarize my emails from today." |} ].

Definition generateSummary (env : Env) : Task string :=
  selected <- D1_select env SelectMessages ;;
  let emails := results selected in
  let messages := prompt emails in
  output <- Ai_run_chat env messages ;;
  ret (response output).

Definition fetch (request : Request) (env : Env) : Task Response :=
  if pathname request =? "/" then
    try_catch
      (now <- Date_now ;;
       let oneDayAgo := (now - (24 * 60 * 60 * 1000))%Z in
       selected <- D1_select env (SelectMessagesAfter oneDayAgo) ;;
       let emails := results selected in
       ret (Response_of_rows emails))
      (fun err => ret (Response_of_text (error_message err)))
  else
    summary <- generateSummary env ;;
    ret (Response_of_summary summary).

(** [const { body, type } = v]: a TypeError on null. *)
Definition destructure_body_type (v : JsValue) : Task (JsValue * JsValue) :=
  match v with
  | JUndefined | JNull => throw (TypeError "Cannot destructure property 'body'")
  | _ => ret (Get v "body", Get v "type")
  end.

(** [String(results[0].id)]: a TypeError when there is no first row. *)
Definition first_id (rows : list Returning) : Task string :=
  match nth_error rows 0 with
  | Some row => ret (String_of_number (returned_id row))
  | None => throw (TypeError "Cannot read properties of undefined (reading 'id')")
  end.

(** The body of the loop of [queue]; falling off the end of a branch is
    its [continue]. *)
Definition queue_message (message : Message) (env : Env) : Task unit :=
  parsed <- settle (JSON_parse (body message)) ;;
  fields <- destructure_body_type parsed ;;
  let (body, type) := fields in
  if negb (strict_equals_string type "email") then
    line <- template_literal (UnknownMessageType type) type ;;
    console_log line
  else
    inserted <- D1_insert env body ;;
    if negb (success inserted) then
      line <- template_literal (FailedToInsert body) body ;;
      console_log line
    else
      id <- first_id (results inserted) ;;
      output <- Ai_run_embedding env [body] ;;
      let values := nth_error (data output) 0 in
      Vectorize_upsert env [ {| vector_id := id; values := values |} ].

Fixpoint queue_loop (remaining : list Message) (env : Env) : Task unit :=
  match remaining with
  | [] => ret tt
  | message :: rest => queue_message message env ;; queue_loop rest env
  end.

Definition queue (batch : MessageBatch) (env : Env) : Task unit :=
  queue_loop (messages batch) env.

End Handlers.

(* ------------------------------------------------------------------ *)
(** *** The scheduled handler *)

(** The second argument of the global [fetch]. *)
Record RequestInit : Type := {
  method : string;
  headers : list (string * string);
  init_body : string
}.

(** What the global [fetch] resolves with. *)
Record FetchResponse : Type := { status : Z }.

(** A request made through the global [fetch]: the URL and the init. *)
Definition Fetched : Type := (string * RequestInit)%type.

(** The network behind the global [fetch]: in a world and after the
    requests made so far, whether a request resolves, and with which
    status, or rejects. *)
Record Network : Type := {
  fetch_reply : World -> list Fetched -> string -> RequestInit -> Outcome FetchResponse
}.

(** [fetch(url, init)] *)
Definition global_fetch (net : Network) (url : string) (init : RequestInit)
    (w : World) (made : list Fetched) : Outcome FetchResponse * list Fetched :=
  (fetch_reply net w made url init, (made ++ [(url, init)])%list).

(** [scheduled] runs in a world and beside the list of the requests
    made so far. *)
Definition scheduled (net : Network) (env : Env) (w : World) (made : list Fetched)
  : Outcome unit * World * list Fetched :=
  match generateSummary env w with
  | (Rejected e, w1) => (Rejected e, w1, made)
  | (Fulfilled summary, w1) =>
      let body :=
        JSON_stringify
          [ ("from", JObj [ ("name", JStr "Email Summarizer");
                            ("email", JStr "no-reply@email-summarizer.signalnerve.workers.dev") ]);
            ("subject", JStr "Your email summary for today");
            ("content", JArr [ JObj [ ("type", JStr "text/plain");
                                      ("value", JStr summary) ] ]) ] in
      let mailchannelsUrl := "https://api.mailchannels.net/tx/v1/send" in
      match global_fetch net mailchannelsUrl
              {| method := "POST";
                 headers := [("Content-Type", "application/json")];
                 init_body := body |} w1 made with
      | (Fulfilled _, made1) => (Fulfilled tt, w1, made1)
      | (Rejected e, made1) => (Rejected e, w1, made1)
      end
  end.

(* ================================================================== *)
(** ** Vocabulary of the statements *)
(* ================================================================== *)

(* From here on an unannotated [++] joins lists. *)
Local Open Scope list_scope.

Section Vocabulary.
Context {runtime : Runtime}.

(** The text the read loop builds from the chunks of a stream. *)
Fixpoint decoded (stream : list (list Byte.byte)) : string :=
  match stream with
  | [] => EmptyString
  | value :: rest => (TextDecoder_decode value ++ decoded rest)%string
  end.

(** The payload the handler sends for a parsed email. *)
Definition payload_of (parsedEmail : Email) : string :=
  JSON_stringify
    (QueuedMessage (js_or (optional (text parsedEmail)) (optional (html parsedEmail)))).

(** The body the amended ingestion contract names: the plain text when
    it is there and not empty, else the HTML, which may be absent. *)
Definition chosen_body (parsedEmail : Email) : option string :=
  match text parsedEmail with
  | Some plain => if plain =? EmptyString then html parsedEmail else Some plain
  | None => html parsedEmail
  end.

(** A queue message whose payload is an object with [type] the string
    email and [body] the value [b]. *)
Definition email_payload (m : Message) (b : JsValue) : Prop :=
  exists props,
    JSON_parse (body m) = Fulfilled (JObj props)
    /\ lookup "type" props = JStr "email"
    /\ lookup "body" props = b.

(** The answers of the store to an insert, and the worlds they leave. *)
Definition failure_reply : D1Result Returning :=
  {| success := false; results := [] |}.

Definition new_row (b : JsValue) (w : World) : StoredMessage :=
  {| id := next_id (table_messages w); message := b; created_at := clock w |}.

Definition commit_reply (row : StoredMessage) : D1Result Returning :=
  {| success := true; results := [ {| returned_id := id row |} ] |}.

Definition after_reported_failure (b : JsValue) (w : World) : World :=
  write_console (FailedToInsert b) (record_call (CallInsert b (Fulfilled failure_reply)) w).

Definition after_commit (b : JsValue) (w : World) : World :=
  record_call (CallInsert b (Fulfilled (commit_reply (new_row b w)))) (store_row (new_row b w) w).

(** The element upserted for a stored row and an inference output. *)
Definition vector_for (row : StoredMessage) (output : EmbeddingOutput) : VectorizeVector :=
  {| vector_id := String_of_number (id row); values := nth_error (data output) 0 |}.

(** A trace of binding calls in which every upsert comes right after a
    committed insert of a row of [table] and the embedding of that
    row's message, and upserts, under the id of that row, the first
    vector of that embedding. *)
Definition backed (table : list StoredMessage) (trace : list Call) : Prop :=
  forall before vectors reply after,
    trace = before ++ CallUpsert vectors reply :: after ->
    exists earlier row output,
      before = earlier ++ [ CallInsert (message row) (Fulfilled (commit_reply row));
                            CallEmbed [message row] (Fulfilled output) ]
      /\ In row table
      /\ vectors = [ vector_for row output ].

(** What a run of the consumer may have added to a world. *)
Definition grown (w w' : World) : Prop :=
  (exists trace, calls w' = calls w ++ trace /\ backed (table_messages w') trace)
  /\ incl (table_messages w) (table_messages w')
  /\ (forall v, In v (index_vectors w') ->
        In v (index_vectors w)
        \/ exists row, In row (table_messages w')
                       /\ vector_id v = String_of_number (id row)).

(** The loop body of the consumer after its type test, for a message of
    type email with body [b]. *)
Definition store_and_index (env : Env) (b : JsValue) : Task unit :=
  inserted <- D1_insert env b ;;
  if negb (success inserted) then
    line <- template_literal (FailedToInsert b) b ;;
    console_log line
  else
    id <- first_id (results inserted) ;;
    output <- Ai_run_embedding env [b] ;;
    Vectorize_upsert env [ {| vector_id := id; values := nth_error (data output) 0 |} ].

End Vocabulary.

Section FurtherVocabulary.
Context {runtime : Runtime}.

(** The binding calls the consumer makes. *)
Definition consumer_call (c : Call) : Prop :=
  match c with
  | CallInsert _ _ | CallEmbed _ _ | CallUpsert _ _ => True
  | CallSelect _ _ | CallChat _ _ | CallSend _ _ => False
  end.

(** What handling [n] messages may do to a world, the index apart: rows
    are appended to the table and lines to the console, together at most
    [n]; at most [3 * n] calls are made, all of them calls of the
    consumer; the backlog and the clock stay. *)
Definition consumed (n : nat) (w w' : World) : Prop :=
  clock w' = clock w
  /\ queue_backlog w' = queue_backlog w
  /\ exists added lines trace,
       table_messages w' = table_messages w ++ added
       /\ console w' = console w ++ lines
       /\ calls w' = calls w ++ trace
       /\ (List.length added + List.length lines <= n)%nat
       /\ (List.length trace <= 3 * n)%nat
       /\ Forall (fun row => created_at row = clock w) added
       /\ Forall consumer_call trace.

(** The bodies of the messages of type email of a batch, in order. *)
Definition email_bodies (batch : list Message) : list JsValue :=
  flat_map
    (fun m =>
       match JSON_parse (body m) with
       | Fulfilled v =>
           if strict_equals_string (Get v "type") "email" then [Get v "body"] else []
       | Rejected _ => []
       end)
    batch.

(** The types the consumer logs for the other messages of a batch. *)
Definition other_types (batch : list Message) : list LogLine :=
  flat_map
    (fun m =>
       match JSON_parse (body m) with
       | Fulfilled v =>
           if strict_equals_string (Get v "type") "email" then []
           else [UnknownMessageType (Get v "type")]
       | Rejected _ => []
       end)
    batch.

(** Bindings of the consumer that always answer. *)
Definition always_answers (env : Env) : Prop :=
  (forall w b, insert_reply (DB env) w b = InsertCommits)
  /\ (forall w input, exists output, embed_reply (AI env) w input = Fulfilled output)
  /\ (forall w vectors, upsert_fault (VECTORIZE_INDEX env) w vectors = None).

(** A message whose body is the JSON text of a value other than null,
    with a type that converts to a string. *)
Definition loggable (m : Message) : Prop :=
  exists v,
    JSON_parse (body m) = Fulfilled v
    /\ v <> JUndefined /\ v <> JNull
    /\ converts (Get v "type") = true.

(** The body [scheduled] posts for a summary, and the request. *)
Definition mail_body (summary : string) : string :=
  JSON_stringify
    [ ("from", JObj [ ("name", JStr "Email Summarizer");
                      ("email", JStr "no-reply@email-summarizer.signalnerve.workers.dev") ]);
      ("subject", JStr "Your email summary for today");
      ("content", JArr [ JObj [ ("type", JStr "text/plain"); ("value", JStr summary) ] ]) ].

Definition mail_init (summary : string) : RequestInit :=
  {| method := "POST";
     headers := [("Content-Type", "application/json")];
     init_body := mail_body summary |}.

Definition mail_url : string := "https://api.mailchannels.net/tx/v1/send".

End FurtherVocabulary.

(* ================================================================== *)
(** ** Test doubles *)
(* ================================================================== *)

Module Doubles.

(** A [JSON.parse] that knows the serializations of the given objects and
    rejects every other text. *)
Fixpoint parse_known (known : list (list (string * JsValue))) (source : string)
  : Outcome JsValue :=
  match known with
  | [] => Rejected (SyntaxError "Unexpected token")
  | props :: rest =>
      if JSON_stringify props =? source then Fulfilled (JObj props)
      else parse_known rest source
  end.

Definition first_email : list (string * JsValue) :=
  [("type", JStr "email"); ("body", JStr "Meeting at 3pm")].
Definition second_email : list (string * JsValue) :=
  [("type", JStr "email"); ("body", JStr "Lunch on Friday")].
Definition text_message : list (string * JsValue) :=
  [("type", JStr "sms"); ("body", JStr "On my way")].

(** A runtime whose MIME parser answers [parsed] whatever the text. *)
Definition runtime_parsing (parsed : Outcome Email) : Runtime :=
  {| JSON_parse := parse_known [first_email; second_email; text_message];
     PostalMime_parse := fun _ => parsed;
     TextDecoder_decode := string_of_list_byte |}.

(** The runtime of the consumer scenarios, which parse no MIME. *)
Definition known : Runtime :=
  runtime_parsing (Rejected (Error "not an email")).

Definition plain_and_html : Email :=
  {| text := Some "Meeting at 3pm"; html := Some "<p>Meeting at 3pm</p>" |}.
Definition empty_plain_and_html : Email :=
  {| text := Some EmptyString; html := Some "<p>Meeting at 3pm</p>" |}.
Definition no_body : Email :=
  {| text := None; html := None |}.

Definition one_chunk : EmailMessage :=
  {| raw := {| chunks := [list_byte_of_string "Subject: hello"];
               stream_error := None |} |}.

Definition unit_vector : Vector := [1%float; 0%float].

(** Bindings that always answer. *)
Definition healthy : Env :=
  {| AI := {| embed_reply := fun _ _ => Fulfilled {| data := [unit_vector] |};
              chat_reply := fun _ _ => Fulfilled {| response := "Nothing to summarize." |} |};
     DB := {| insert_reply := fun _ _ => InsertCommits;
              select_fault := fun _ _ => None |};
     QUEUE := {| send_fault := fun _ _ => None |};
     VECTORIZE_INDEX := {| upsert_fault := fun _ _ => None |} |}.

(** The embedding model is down. *)
Definition embedding_down : Env :=
  {| AI := {| embed_reply := fun _ _ => Rejected (Error "inference failed");
              chat_reply := chat_reply (AI healthy) |};
     DB := DB healthy; QUEUE := QUEUE healthy;
     VECTORIZE_INDEX := VECTORIZE_INDEX healthy |}.

(** The vector index is down. *)
Definition index_down : Env :=
  {| AI := AI healthy; DB := DB healthy; QUEUE := QUEUE healthy;
     VECTORIZE_INDEX := {| upsert_fault := fun _ _ => Some (Error "index unavailable") |} |}.

(** The queue is full. *)
Definition queue_full : Env :=
  {| AI := AI healthy; DB := DB healthy;
     QUEUE := {| send_fault := fun _ _ => Some (Error "queue full") |};
     VECTORIZE_INDEX := VECTORIZE_INDEX healthy |}.

(** The store reports failure for the first insert it sees and commits
    the later ones. *)
Definition no_insert_yet (w : World) : bool :=
  forallb (fun c => match c with CallInsert _ _ => false | _ => true end) (calls w).

Definition first_insert_fails : Env :=
  {| AI := AI healthy;
     DB := {| insert_reply := fun w _ =>
                if no_insert_yet w then InsertReportsFailure else InsertCommits;
              select_fault := fun _ _ => None |};
     QUEUE := QUEUE healthy; VECTORIZE_INDEX := VECTORIZE_INDEX healthy |}.

(** The store reports failure for every insert. *)
Definition inserts_fail : Env :=
  {| AI := AI healthy;
     DB := {| insert_reply := fun _ _ => InsertReportsFailure;
              select_fault := fun _ _ => None |};
     QUEUE := QUEUE healthy; VECTORIZE_INDEX := VECTORIZE_INDEX healthy |}.

Definition noon : Z := 1700000000000.
Definition day : Z := 24 * 60 * 60 * 1000.

Definition fresh : World :=
  {| clock := noon; table_messages := []; index_vectors := [];
     queue_backlog := []; console := []; calls := [] |}.

Definition recent_row : StoredMessage :=
  {| id := 2; message := JStr "Lunch on Friday"; created_at := noon - 3600000 |}.
Definition old_row : StoredMessage :=
  {| id := 1; message := JStr "Meeting at 3pm"; created_at := noon - day - 1 |}.

Definition with_history : World :=
  {| clock := noon; table_messages := [old_row; recent_row]; index_vectors := [];
     queue_backlog := []; console := []; calls := [] |}.

Definition message_of (props : list (string * JsValue)) : Message :=
  {| body := JSON_stringify props |}.

End Doubles.

Module Fixtures.
Import Doubles.

(** A text between two quote characters, as it stands. *)
Definition in_quotes (s : string) : string :=
  String dquote (s ++ String dquote EmptyString).

(** A stream that fails after its first chunk. *)
Definition broken_stream : EmailMessage :=
  {| raw := {| chunks := [list_byte_of_string "Subject: hel"];
               stream_error := Some (Error "stream reset") |} |}.

Definition html_only : Email :=
  {| text := None; html := Some "<p>Meeting at 3pm</p>" |}.

(** An email message without a body property, and the text of null. *)
Definition bodyless_email : list (string * JsValue) := [("type", JStr "email")].

Definition null_message : Message := {| body := "null" |}.

(** A [JSON.parse] that knows null besides the objects of [Doubles]
    and [bodyless_email]. *)
Definition knowing_null : Runtime :=
  {| JSON_parse := fun source =>
       if source =? "null" then Fulfilled JNull
       else parse_known [first_email; second_email; text_message; bodyless_email] source;
     PostalMime_parse := fun _ => Fulfilled plain_and_html;
     TextDecoder_decode := string_of_list_byte |}.



(** The store is down. *)
Definition store_down : Env :=
  {| AI := AI healthy;
     DB := {| insert_reply := fun _ _ => InsertThrows (Error "D1_ERROR");
              select_fault := fun _ _ => Some (Error "D1_ERROR") |};
     QUEUE := QUEUE healthy; VECTORIZE_INDEX := VECTORIZE_INDEX healthy |}.

(** The chat model is down. *)
Definition chat_down : Env :=
  {| AI := {| embed_reply := embed_reply (AI healthy);
              chat_reply := fun _ _ => Rejected (Error "inference failed") |};
     DB := DB healthy; QUEUE := QUEUE healthy;
     VECTORIZE_INDEX := VECTORIZE_INDEX healthy |}.

(** A mail API that refuses every request, and a network that is down. *)
Definition refusing : Network :=
  {| fetch_reply := fun _ _ _ _ => Fulfilled {| status := 500 |} |}.

Definition unreachable : Network :=
  {| fetch_reply := fun _ _ _ _ => Rejected (TypeError "fetch failed") |}.

End Fixtures.

(* ================================================================== *)
(** ** Verification *)
(* ================================================================== *)

(** *** Computations *)

Lemma bind_fulfilled {A B : Type} (m : Task A) (k : A -> Task B) w a w' :
  m w = (Fulfilled a, w') -> bind m k w = k a w'.
Proof. intros H. unfold bind. now rewrite H. Qed.

Lemma bind_rejected {A B : Type} (m : Task A) (k : A -> Task B) w e w' :
  m w = (Rejected e, w') -> bind m k w = (Rejected e, w').
Proof. intros H. unfold bind. now rewrite H. Qed.

Lemma append_assoc (a b c : string) : ((a ++ b) ++ c = a ++ (b ++ c))%string.
Proof. induction a as [|x a IH]; simpl; [reflexivity | now rewrite IH]. Qed.

(* ------------------------------------------------------------------ *)
(** *** The email handler *)

Section EmailHandler.
Context {runtime : Runtime}.

Lemma read_all_done stream body w :
  read_all stream None body w = (Fulfilled (body ++ decoded stream)%string, w).
Proof.
  revert body. induction stream as [|value rest IH]; intros body; simpl.
  - unfold ret. f_equal. f_equal.
    induction body as [|c body IHb]; simpl; [reflexivity | now rewrite <- IHb].
  - rewrite IH. now rewrite append_assoc.
Qed.

Lemma read_all_failed stream e body w :
  read_all stream (Some e) body w = (Rejected e, w).
Proof. revert body. induction stream as [|value rest IH]; intros body; simpl; auto. Qed.

(** Once the stream is read and the MIME parser has answered, the
    handler is the one send of the payload. *)
Lemma email_sends message env w parsedEmail :
  stream_error (raw message) = None ->
  PostalMime_parse (decoded (chunks (raw message))) = Fulfilled parsedEmail ->
  email message env w = Queue_send env (payload_of parsedEmail) w.
Proof.
  intros Hstream Hparse. unfold email.
  rewrite Hstream.
  rewrite (bind_fulfilled _ _ _ _ _ (read_all_done _ _ _)). simpl.
  unfold bind at 1, settle. rewrite Hparse. reflexivity.
Qed.

(** A handler that completes has sent exactly one payload. *)
Lemma email_fulfilled_sent message env w :
  fst (email message env w) = Fulfilled tt ->
  exists payload,
    send_fault (QUEUE env) w payload = None /\
    snd (email message env w)
    = record_call (CallSend payload (Fulfilled tt)) (push_backlog payload w).
Proof.
  unfold email. destruct (stream_error (raw message)) as [e|] eqn:Hstream.
  - rewrite (bind_rejected _ _ _ _ _ (read_all_failed _ _ _ _)). discriminate.
  - rewrite (bind_fulfilled _ _ _ _ _ (read_all_done _ _ _)). simpl.
    unfold bind, settle.
    destruct (PostalMime_parse _) as [parsedEmail|e]; [|discriminate].
    unfold Queue_send.
    destruct (send_fault _ _ _) eqn:Hsend; [discriminate|].
    intros _. eexists. split; [exact Hsend | reflexivity].
Qed.

End EmailHandler.

Section EmailClaims.
Context {runtime : Runtime}.

(** C5. For every raw email whose parsed plain-text body is a non-empty
    string, the payload the handler puts on the queue is the
    serialization of [{ type: 'email', body: plain }], whether or not an
    HTML body is present. *)
Theorem plain_text_body_is_enqueued message env w parsedEmail plain :
  stream_error (raw message) = None ->
  PostalMime_parse (decoded (chunks (raw message))) = Fulfilled parsedEmail ->
  text parsedEmail = Some plain ->
  plain <> EmptyString ->
  email message env w
  = Queue_send env (JSON_stringify [("type", JStr "email"); ("body", JStr plain)]) w.
Proof.
  intros Hstream Hparse Htext Hfull.
  rewrite (email_sends _ _ _ _ Hstream Hparse).
  unfold payload_of, js_or. rewrite Htext. simpl.
  apply String.eqb_neq in Hfull. now rewrite Hfull.
Qed.

(** C10. For every raw email whose parsed plain-text body is the empty
    string and whose HTML body is present, the payload put on the queue
    carries the HTML body: the choice is by truthiness, so the empty
    plain text counts as absent. *)
Theorem empty_plain_text_yields_html message env w parsedEmail markup :
  stream_error (raw message) = None ->
  PostalMime_parse (decoded (chunks (raw message))) = Fulfilled parsedEmail ->
  text parsedEmail = Some EmptyString ->
  html parsedEmail = Some markup ->
  email message env w
  = Queue_send env (JSON_stringify [("type", JStr "email"); ("body", JStr markup)]) w.
Proof.
  intros Hstream Hparse Htext Hhtml.
  rewrite (email_sends _ _ _ _ Hstream Hparse).
  unfold payload_of, js_or. now rewrite Htext, Hhtml.
Qed.

(** C2, amended. For every raw email, the body put on the queue is the
    plain-text body when that is present and not empty, otherwise the
    HTML body when one is present; when neither holds the payload has no
    body property at all. *)
Theorem enqueued_body_choice message env w parsedEmail :
  stream_error (raw message) = None ->
  PostalMime_parse (decoded (chunks (raw message))) = Fulfilled parsedEmail ->
  email message env w
  = Queue_send env
      match chosen_body parsedEmail with
      | Some chosen => JSON_stringify [("type", JStr "email"); ("body", JStr chosen)]
      | None => JSON_stringify [("type", JStr "email")]
      end w.
Proof.
  intros Hstream Hparse.
  rewrite (email_sends _ _ _ _ Hstream Hparse).
  unfold payload_of, js_or, chosen_body.
  destruct (text parsedEmail) as [plain|]; simpl.
  - destruct (plain =? EmptyString) eqn:Hempty; simpl.
    + destruct (html parsedEmail); reflexivity.
    + reflexivity.
  - destruct (html parsedEmail); reflexivity.
Qed.

(** C9. For every inbound email, when the send onto the queue fails the
    handler rejects with that failure and nothing is enqueued; and
    whenever the handler completes, a payload has been accepted by the
    queue. *)
Theorem failed_enqueue_fails_email message env w :
  (forall parsedEmail e,
      stream_error (raw message) = None ->
      PostalMime_parse (decoded (chunks (raw message))) = Fulfilled parsedEmail ->
      send_fault (QUEUE env) w (payload_of parsedEmail) = Some e ->
      email message env w
      = (Rejected e, record_call (CallSend (payload_of parsedEmail) (Rejected e)) w))
  /\ (fst (email message env w) = Fulfilled tt ->
      exists payload,
        send_fault (QUEUE env) w payload = None /\
        queue_backlog (snd (email message env w)) = (queue_backlog w ++ [payload])%list).
Proof.
  split.
  - intros parsedEmail e Hstream Hparse Hsend.
    rewrite (email_sends _ _ _ _ Hstream Hparse).
    unfold Queue_send. now rewrite Hsend.
  - intros Hdone. destruct (email_fulfilled_sent _ _ _ Hdone) as [payload [Hsend Hworld]].
    exists payload. split; [exact Hsend|]. now rewrite Hworld.
Qed.

End EmailClaims.

Section EmailScenarios.
Import Doubles.

(** The plain text is what goes on the queue. *)
Example meeting_at_3pm_is_enqueued :
  queue_backlog
    (snd (email (runtime := runtime_parsing (Fulfilled plain_and_html))
            one_chunk healthy fresh))
  = [JSON_stringify first_email].
Proof. reflexivity. Qed.

(** A stream that fails, or a MIME parser that rejects, fails the
    handler before anything is sent. *)
Example unparsable_email_rejects :
  email (runtime := known) one_chunk healthy fresh
  = (Rejected (Error "not an email"), fresh).
Proof. reflexivity. Qed.

Lemma plain_text_body_is_enqueued_witness :
  email (runtime := runtime_parsing (Fulfilled plain_and_html)) one_chunk healthy fresh
  = Queue_send healthy
      (JSON_stringify [("type", JStr "email"); ("body", JStr "Meeting at 3pm")]) fresh.
Proof.
  apply (plain_text_body_is_enqueued (runtime := runtime_parsing (Fulfilled plain_and_html))
           one_chunk healthy fresh plain_and_html "Meeting at 3pm");
    [reflexivity | reflexivity | reflexivity | discriminate].
Defined.

Lemma empty_plain_text_yields_html_witness :
  email (runtime := runtime_parsing (Fulfilled empty_plain_and_html)) one_chunk healthy fresh
  = Queue_send healthy
      (JSON_stringify [("type", JStr "email"); ("body", JStr "<p>Meeting at 3pm</p>")]) fresh.
Proof.
  apply (empty_plain_text_yields_html
           (runtime := runtime_parsing (Fulfilled empty_plain_and_html))
           one_chunk healthy fresh empty_plain_and_html "<p>Meeting at 3pm</p>");
    reflexivity.
Defined.

Lemma enqueued_body_choice_witness :
  email (runtime := runtime_parsing (Fulfilled no_body)) one_chunk healthy fresh
  = Queue_send healthy (JSON_stringify [("type", JStr "email")]) fresh.
Proof.
  apply (enqueued_body_choice (runtime := runtime_parsing (Fulfilled no_body))
           one_chunk healthy fresh no_body); reflexivity.
Defined.

(** C2 as stated fails: an email with neither body is enqueued as an
    object with no body property, not with the empty string as body. *)
Lemma email_without_bodies_has_no_body_property :
  queue_backlog
    (snd (email (runtime := runtime_parsing (Fulfilled no_body)) one_chunk healthy fresh))
  = [JSON_stringify [("type", JStr "email")]]
  /\ queue_backlog
       (snd (email (runtime := runtime_parsing (Fulfilled no_body)) one_chunk healthy fresh))
     <> [JSON_stringify (QueuedMessage (JStr EmptyString))].
Proof. split; [reflexivity | discriminate]. Qed.

Lemma failed_enqueue_fails_email_witness :
  email (runtime := runtime_parsing (Fulfilled plain_and_html)) one_chunk queue_full fresh
  = (Rejected (Error "queue full"),
     record_call (CallSend (JSON_stringify first_email) (Rejected (Error "queue full"))) fresh).
Proof.
  apply (proj1 (failed_enqueue_fails_email
                  (runtime := runtime_parsing (Fulfilled plain_and_html))
                  one_chunk queue_full fresh) plain_and_html (Error "queue full"));
    reflexivity.
Defined.

End EmailScenarios.

(* ------------------------------------------------------------------ *)
(** *** The summarizer and the listing *)

Section SummaryClaims.
Context {runtime : Runtime}.

(** What the store answers to a query that does not fail. *)
Lemma D1_select_answers env query w :
  select_fault (DB env) w query = None ->
  D1_select env query w
  = (Fulfilled {| success := true; results := select_rows query (table_messages w) |},
     record_call
       (CallSelect query
          (Fulfilled {| success := true; results := select_rows query (table_messages w) |}))
       w).
Proof. intros H. unfold D1_select. now rewrite H. Qed.

(** C8. When the table holds no row, the summarizer still builds the
    five turns, the fourth with nothing after its heading, asks the chat
    model, and returns the text the model generated. *)
Theorem summary_of_empty_store env w output :
  table_messages w = [] ->
  select_fault (DB env) w SelectMessages = None ->
  let asked :=
    record_call (CallSelect SelectMessages (Fulfilled {| success := true; results := [] |})) w in
  chat_reply (AI env) asked (prompt []) = Fulfilled output ->
  generateSummary env w
  = (Fulfilled (response output),
     record_call (CallChat (prompt []) (Fulfilled output)) asked)
  /\ prompt []
     = [ {| role := "system"; content := "You are an AI that summarizes emails." |};
         {| role := "system";
            content := "You will receive a list of emails - take the details of each email and summarize them." |};
         {| role := "system";
            content := "Don't repeat the prompt back to me, just return the summary." |};
         {| role := "system"; content := "Here are the emails for today: " |};
         {| role := "user"; content := "Summarize my emails from today." |} ].
Proof.
  intros Hempty Hselect asked Hchat. split; [|reflexivity].
  unfold generateSummary.
  rewrite (bind_fulfilled _ _ _ _ _ (D1_select_answers _ _ _ Hselect)).
  simpl select_rows. rewrite Hempty. simpl results.
  unfold bind, Ai_run_chat, ret. fold asked. now rewrite Hchat.
Qed.

(** C3. The summarizer is fed every row of the table, the listing at
    [/] gives only the rows created after the instant one day before
    now; so each listed row is fed to the summarizer, and a row created
    a day ago or earlier is fed to the summarizer and not listed. *)
Theorem summary_reads_all_listing_reads_last_day env w :
  select_fault (DB env) w SelectMessages = None ->
  select_fault (DB env) w (SelectMessagesAfter (clock w - 86400000)) = None ->
  let fed := table_messages w in
  let listed := filter (fun r => (clock w - 86400000 <? created_at r)%Z) (table_messages w) in
  generateSummary env w
  = bind (Ai_run_chat env (prompt fed)) (fun output => ret (response output))
      (record_call
         (CallSelect SelectMessages (Fulfilled {| success := true; results := fed |})) w)
  /\ fst (fetch {| pathname := "/" |} env w) = Fulfilled (Response_of_rows listed)
  /\ (forall r, In r listed -> In r fed /\ (clock w - 86400000 < created_at r)%Z)
  /\ (forall r, In r (table_messages w) -> (created_at r <= clock w - 86400000)%Z ->
                In r fed /\ ~ In r listed).
Proof.
  intros Hall Hday fed listed. repeat split.
  - unfold generateSummary.
    now rewrite (bind_fulfilled _ _ _ _ _ (D1_select_answers _ _ _ Hall)).
  - unfold fetch. simpl. unfold try_catch, bind, Date_now.
    change (24 * 60 * 60 * 1000)%Z with 86400000%Z.
    now rewrite (D1_select_answers _ _ _ Hday).
  - apply filter_In in H. tauto.
  - apply filter_In in H. destruct H as [_ H]. now apply Z.ltb_lt in H.
  - assumption.
  - intros Hlisted. apply filter_In in Hlisted. destruct Hlisted as [_ Hlt].
    apply Z.ltb_lt in Hlt. lia.
Qed.

End SummaryClaims.

Section SummaryScenarios.
Import Doubles.

(** Both rows reach the prompt, the older first. *)
Example prompt_of_history :
  map content (prompt with_history.(table_messages))
  = [ "You are an AI that summarizes emails.";
      "You will receive a list of emails - take the details of each email and summarize them.";
      "Don't repeat the prompt back to me, just return the summary.";
      ("Here are the emails for today: Meeting at 3pm" ++ newline ++ "Lunch on Friday")%string;
      "Summarize my emails from today." ].
Proof. reflexivity. Qed.

(** A failing store query is answered with the message of its error. *)
Example listing_reports_store_error :
  fst (fetch {| pathname := "/" |}
         {| AI := AI healthy;
            DB := {| insert_reply := fun _ _ => InsertCommits;
                     select_fault := fun _ _ => Some (Error "D1_ERROR") |};
            QUEUE := QUEUE healthy; VECTORIZE_INDEX := VECTORIZE_INDEX healthy |}
         with_history)
  = Fulfilled (Response_of_text "D1_ERROR").
Proof. reflexivity. Qed.

Lemma summary_of_empty_store_witness :
  fst (generateSummary healthy fresh) = Fulfilled "Nothing to summarize.".
Proof.
  rewrite (proj1 (summary_of_empty_store healthy fresh
                    {| response := "Nothing to summarize." |}
                    eq_refl eq_refl eq_refl)).
  reflexivity.
Defined.

Lemma summary_reads_all_listing_reads_last_day_witness :
  fst (fetch {| pathname := "/" |} healthy with_history) = Fulfilled (Response_of_rows [recent_row])
  /\ In old_row (table_messages with_history)
  /\ ~ In old_row [recent_row].
Proof.
  pose proof (summary_reads_all_listing_reads_last_day healthy with_history eq_refl eq_refl)
    as [_ [Hlisting [_ Hold]]].
  split; [exact Hlisting|].
  apply (Hold old_row); [simpl; auto | vm_compute; discriminate].
Defined.

End SummaryScenarios.

(* ------------------------------------------------------------------ *)
(** *** The queue consumer *)

(** No upsert among the calls of a short trace. *)
Ltac no_upsert :=
  let H := fresh in
  intros ? ? H; simpl in H;
  repeat (destruct H as [H|H]; [discriminate|]); exact H.

(** Read the fields of a world built by the binding calls. *)
Ltac read_world :=
  unfold after_commit, after_reported_failure, record_call, write_console,
    store_row, index_all; simpl.

Section QueueConsumer.
Context {runtime : Runtime}.

(** The loop over a batch cut in two: the second part runs in the world
    the first part leaves, unless the first part threw. *)
Lemma queue_loop_app before after env w :
  queue_loop (before ++ after) env w
  = match queue_loop before env w with
    | (Fulfilled _, w1) => queue_loop after env w1
    | (Rejected e, w1) => (Rejected e, w1)
    end.
Proof.
  revert w. induction before as [|m before IH]; intros w; simpl.
  - reflexivity.
  - unfold bind.
    destruct (queue_message m env w) as [[[]|e] w1]; [apply IH | reflexivity].
Qed.

Lemma queue_loop_cons m rest env w :
  queue_loop (m :: rest) env w
  = match queue_message m env w with
    | (Fulfilled _, w1) => queue_loop rest env w1
    | (Rejected e, w1) => (Rejected e, w1)
    end.
Proof. reflexivity. Qed.


(** The loop body on a payload that destructures. *)
Lemma queue_message_destructures m env w v :
  JSON_parse (body m) = Fulfilled v ->
  v <> JUndefined -> v <> JNull ->
  queue_message m env w
  = if strict_equals_string (Get v "type") "email"
    then store_and_index env (Get v "body") w
    else if converts (Get v "type")
         then (Fulfilled tt, write_console (UnknownMessageType (Get v "type")) w)
         else (Rejected conversion_error, w).
Proof.
  intros Hparse Hdef Hnull. unfold queue_message.
  rewrite (bind_fulfilled _ _ w v w) by (unfold settle; now rewrite Hparse).
  assert (Hfields : destructure_body_type v w = (Fulfilled (Get v "body", Get v "type"), w))
    by (destruct v; solve [reflexivity | contradiction]).
  rewrite (bind_fulfilled _ _ _ _ _ Hfields).
  destruct (strict_equals_string (Get v "type") "email"); [reflexivity|].
  unfold bind, template_literal, console_log. simpl negb. cbv iota.
  destruct (converts (Get v "type")); reflexivity.
Qed.



(** A message of type email goes on to the store. *)
Lemma queue_message_email m env w b :
  email_payload m b -> queue_message m env w = store_and_index env b w.
Proof.
  intros [props [Hparse [Htype Hbody]]].
  rewrite (queue_message_destructures _ _ _ (JObj props) Hparse) by discriminate.
  simpl Get. now rewrite Htype, Hbody.
Qed.

(** A failure the store reports is logged, with the body in the line:
    that throws when the body does not convert to a string. *)
Lemma store_and_index_reports env b w :
  insert_reply (DB env) w b = InsertReportsFailure ->
  store_and_index env b w
  = if converts b then (Fulfilled tt, after_reported_failure b w)
    else (Rejected conversion_error,
          record_call (CallInsert b (Fulfilled failure_reply)) w).
Proof.
  intros Hreply. unfold store_and_index, bind, D1_insert. rewrite Hreply.
  simpl negb. cbv iota. unfold template_literal, console_log.
  destruct (converts b); reflexivity.
Qed.

Lemma store_and_index_reported_failure env b w :
  insert_reply (DB env) w b = InsertReportsFailure ->
  converts b = true ->
  store_and_index env b w = (Fulfilled tt, after_reported_failure b w).
Proof.
  intros Hreply Hconverts. now rewrite (store_and_index_reports _ _ _ Hreply), Hconverts.
Qed.

Lemma store_and_index_insert_throws env b w e :
  insert_reply (DB env) w b = InsertThrows e ->
  store_and_index env b w = (Rejected e, record_call (CallInsert b (Rejected e)) w).
Proof.
  intros Hreply. unfold store_and_index, bind, D1_insert. now rewrite Hreply.
Qed.

Lemma store_and_index_commits env b w :
  insert_reply (DB env) w b = InsertCommits ->
  store_and_index env b w
  = bind (Ai_run_embedding env [b])
      (fun output => Vectorize_upsert env [ vector_for (new_row b w) output ])
      (after_commit b w).
Proof.
  intros Hreply. unfold store_and_index.
  unfold bind at 1, D1_insert. rewrite Hreply. reflexivity.
Qed.

(** The three ways the loop body can go. *)
Lemma queue_message_shape m env w :
  (exists e, queue_message m env w = (Rejected e, w))
  \/ (exists line, queue_message m env w = (Fulfilled tt, write_console line w))
  \/ (exists b, queue_message m env w = store_and_index env b w).
Proof.
  destruct (JSON_parse (body m)) as [v|e] eqn:Hparse.
  2: { left. exists e. unfold queue_message. apply bind_rejected.
       unfold settle. now rewrite Hparse. }
  assert (Hnull : queue_message m env w
                  = bind (destructure_body_type v)
                      (fun fields =>
                         let (body, type) := fields in
                         if negb (strict_equals_string type "email")
                         then bind (template_literal (UnknownMessageType type) type)
                                (fun line => console_log line)
                         else store_and_index env body) w).
  { unfold queue_message.
    now rewrite (bind_fulfilled _ _ w v w) by (unfold settle; now rewrite Hparse). }
  destruct v as [| |flag|p|s|items|props];
    try (left; eexists; rewrite Hnull; apply bind_rejected; reflexivity);
    rewrite (queue_message_destructures _ _ _ _ Hparse) by discriminate;
    (destruct (strict_equals_string _ "email");
     [ right; right; eexists; reflexivity
     | destruct (converts _);
       [ right; left; eexists; reflexivity | left; eexists; reflexivity ] ]).
Qed.

(* .................................................................. *)
(** **** Traces in which the upserts are backed by stored rows *)

Lemma backed_nil table : backed table [].
Proof. intros [|c before] vectors reply after H; discriminate. Qed.

Lemma backed_mono table table' trace :
  incl table table' -> backed table trace -> backed table' trace.
Proof.
  intros Hincl Hbacked before vectors reply after Htrace.
  destruct (Hbacked _ _ _ _ Htrace) as [earlier [row [output [Hbefore [Hrow Hvectors]]]]].
  exists earlier, row, output. auto.
Qed.

Lemma backed_app table first second :
  backed table first -> backed table second -> backed table (first ++ second).
Proof.
  intros Hfirst Hsecond before vectors reply after Htrace.
  apply app_eq_app in Htrace. destruct Htrace as [middle [[Hcut Hrest] | [Hcut Hrest]]].
  - destruct middle as [|c middle].
    + simpl in Hrest. rewrite app_nil_r in Hcut. subst first.
      destruct (Hsecond [] vectors reply after (eq_sym Hrest))
        as [earlier [row [output [Hbefore _]]]].
      destruct earlier; discriminate.
    + simpl in Hrest. injection Hrest as <- Hafter.
      apply (Hfirst _ _ _ _ Hcut).
  - destruct (Hsecond _ _ _ _ Hrest) as [earlier [row [output [Hbefore [Hrow Hvectors]]]]].
    exists (first ++ earlier), row, output. repeat split; auto.
    rewrite Hcut, Hbefore. now rewrite app_assoc.
Qed.

(** A trace of one call that is no upsert, or of two. *)
Lemma backed_no_upsert table trace :
  (forall vectors reply, ~ In (CallUpsert vectors reply) trace) -> backed table trace.
Proof.
  intros Hnone before vectors reply after Htrace.
  exfalso. apply (Hnone vectors reply). rewrite Htrace. apply in_elt.
Qed.

Lemma backed_commit_embed_upsert table row output reply :
  In row table ->
  backed table [ CallInsert (message row) (Fulfilled (commit_reply row));
                 CallEmbed [message row] (Fulfilled output);
                 CallUpsert [vector_for row output] reply ].
Proof.
  intros Hrow before vectors reply' after Htrace.
  destruct before as [|c1 [|c2 [|c3 before]]]; try discriminate.
  - simpl in Htrace. injection Htrace as <- <- <- _ _.
    exists [], row, output. auto.
  - simpl in Htrace. injection Htrace as _ _ _ Hend. destruct before; discriminate.
Qed.

(* .................................................................. *)
(** **** What a run adds to a world *)

Lemma grown_refl w : grown w w.
Proof.
  repeat split.
  - exists []. split; [now rewrite app_nil_r | apply backed_nil].
  - apply incl_refl.
  - auto.
Qed.

Lemma grown_trans w1 w2 w3 : grown w1 w2 -> grown w2 w3 -> grown w1 w3.
Proof.
  intros [[t12 [Hcalls12 Hbacked12]] [Htable12 Hindex12]]
         [[t23 [Hcalls23 Hbacked23]] [Htable23 Hindex23]].
  repeat split.
  - exists (t12 ++ t23). split.
    + rewrite Hcalls23, Hcalls12. now rewrite app_assoc.
    + apply backed_app; [eapply backed_mono; eauto | assumption].
  - eapply incl_tran; eauto.
  - intros v Hv. destruct (Hindex23 v Hv) as [Hold | Hrow]; [|now right].
    destruct (Hindex12 v Hold) as [Holder | [row [Hrow Hid]]]; [now left|].
    right. exists row. split; [now apply Htable23 | assumption].
Qed.

Lemma grown_by_calls w w' trace :
  calls w' = calls w ++ trace ->
  (forall vectors reply, ~ In (CallUpsert vectors reply) trace) ->
  incl (table_messages w) (table_messages w') ->
  index_vectors w' = index_vectors w ->
  grown w w'.
Proof.
  intros Hcalls Hnone Htable Hindex. repeat split.
  - exists trace. split; [assumption | now apply backed_no_upsert].
  - assumption.
  - intros v Hv. left. now rewrite <- Hindex.
Qed.

Lemma grown_console line w : grown w (write_console line w).
Proof.
  apply (grown_by_calls _ _ []);
    [simpl; now rewrite app_nil_r | intros ? ? [] | apply incl_refl | reflexivity].
Qed.

Lemma store_and_index_grows env b w : grown w (snd (store_and_index env b w)).
Proof.
  destruct (insert_reply (DB env) w b) as [| |e] eqn:Hreply.
  - rewrite (store_and_index_commits _ _ _ Hreply).
    unfold bind, Ai_run_embedding.
    destruct (embed_reply (AI env) (after_commit b w) [b]) as [output|e] eqn:Hembed.
    + unfold Vectorize_upsert.
      destruct (upsert_fault _ _ _) as [e|]; simpl.
      * repeat split.
        -- eexists. split; [read_world; rewrite <- !app_assoc; reflexivity|].
           apply (backed_commit_embed_upsert _ (new_row b w)). read_world. apply in_elt.
        -- read_world. apply incl_appl, incl_refl.
        -- read_world. auto.
      * repeat split.
        -- eexists. split; [read_world; rewrite <- !app_assoc; reflexivity|].
           apply (backed_commit_embed_upsert _ (new_row b w)). read_world. apply in_elt.
        -- read_world. apply incl_appl, incl_refl.
        -- read_world. intros v Hv. unfold put_vector in Hv. apply in_app_or in Hv.
           destruct Hv as [Hold | [<- | []]].
           ++ left. apply filter_In in Hold. tauto.
           ++ right. exists (new_row b w). split; [apply in_elt | reflexivity].
    + simpl. apply (grown_by_calls _ _
                      [CallInsert b (Fulfilled (commit_reply (new_row b w)));
                       CallEmbed [b] (Rejected e)]).
      * read_world. now rewrite <- app_assoc.
      * no_upsert.
      * read_world. apply incl_appl, incl_refl.
      * reflexivity.
  - rewrite (store_and_index_reports _ _ _ Hreply).
    destruct (converts b); simpl;
      apply (grown_by_calls _ _ [CallInsert b (Fulfilled failure_reply)]);
      [reflexivity | no_upsert | apply incl_refl | reflexivity
      | reflexivity | no_upsert | apply incl_refl | reflexivity].
  - rewrite (store_and_index_insert_throws _ _ _ _ Hreply). simpl.
    apply (grown_by_calls _ _ [CallInsert b (Rejected e)]);
      [reflexivity | no_upsert | apply incl_refl | reflexivity].
Qed.

Lemma queue_message_grows m env w : grown w (snd (queue_message m env w)).
Proof.
  destruct (queue_message_shape m env w) as [[e H] | [[line H] | [b H]]]; rewrite H.
  - apply grown_refl.
  - apply grown_console.
  - apply store_and_index_grows.
Qed.

Lemma queue_loop_grows batch env w : grown w (snd (queue_loop batch env w)).
Proof.
  revert w. induction batch as [|m rest IH]; intros w.
  - apply grown_refl.
  - rewrite queue_loop_cons.
    pose proof (queue_message_grows m env w) as Hstep.
    destruct (queue_message m env w) as [[[]|e] w1]; simpl in Hstep.
    + eapply grown_trans; [exact Hstep | apply IH].
    + exact Hstep.
Qed.

End QueueConsumer.

Section QueueClaims.
Context {runtime : Runtime}.

(** C4. In every run of the consumer over a batch, each upsert into the
    vector index comes right after an insert that reported success and
    the embedding of the inserted message, the upserted id is the id the
    store generated for that row, as a string, and the row is in the
    table; so every vector the run leaves in the index that was not
    there before has its stored message. *)
Theorem upsert_only_after_committed_insert batch env w :
  let w' := snd (queue batch env w) in
  (exists trace,
      calls w' = calls w ++ trace /\ backed (table_messages w') trace)
  /\ (forall v, In v (index_vectors w') ->
        In v (index_vectors w)
        \/ exists row, In row (table_messages w')
                       /\ vector_id v = String_of_number (id row)).
Proof.
  intros w'. destruct (queue_loop_grows (messages batch) env w) as [Htrace [_ Hindex]].
  split; assumption.
Qed.


(** C7. A batch of two email messages, the insert of the first reported
    as failed and the insert of the second committed (the first body
    converting to a string for its log line, and the embedding call
    answering): afterwards the table has exactly one more row, the
    second message, and the calls made are the two inserts, one
    embedding and one upsert, both for the second message under the id
    of its row. *)
Theorem failed_insert_then_committed_insert env m1 m2 b1 b2 w output :
  email_payload m1 b1 ->
  email_payload m2 b2 ->
  insert_reply (DB env) w b1 = InsertReportsFailure ->
  converts b1 = true ->
  let w1 := after_reported_failure b1 w in
  insert_reply (DB env) w1 b2 = InsertCommits ->
  let row := new_row b2 w1 in
  embed_reply (AI env) (after_commit b2 w1) [b2] = Fulfilled output ->
  let w' := snd (queue {| messages := [m1; m2] |} env w) in
  table_messages w' = table_messages w ++ [row]
  /\ message row = b2
  /\ (table_messages w = [] -> List.length (table_messages w') = 1%nat)
  /\ exists reply,
       calls w' = calls w ++ [ CallInsert b1 (Fulfilled failure_reply);
                               CallInsert b2 (Fulfilled (commit_reply row));
                               CallEmbed [b2] (Fulfilled output);
                               CallUpsert [vector_for row output] reply ].
Proof.
  intros Hfirst Hsecond Hfails Hconverts w1 Hcommits row Hembed w'.
  assert (Hrun : queue {| messages := [m1; m2] |} env w
                 = bind (Vectorize_upsert env [vector_for row output]) (fun _ => ret tt)
                     (record_call (CallEmbed [b2] (Fulfilled output)) (after_commit b2 w1))).
  { unfold queue. simpl messages. rewrite queue_loop_cons.
    rewrite (queue_message_email _ _ _ _ Hfirst).
    rewrite (store_and_index_reported_failure _ _ _ Hfails Hconverts). fold w1.
    rewrite queue_loop_cons.
    rewrite (queue_message_email _ _ _ _ Hsecond).
    rewrite (store_and_index_commits _ _ _ Hcommits).
    unfold bind at 1 2, Ai_run_embedding. rewrite Hembed. fold row.
    unfold bind. destruct (Vectorize_upsert _ _ _) as [[[]|e] w3]; reflexivity. }
  subst w'. rewrite Hrun. unfold bind, Vectorize_upsert.
  assert (Htable : table_messages w1 = table_messages w) by reflexivity.
  destruct (upsert_fault _ _ _) as [e|]; read_world.
  - repeat split.
    + intros Hempty. rewrite Hempty. reflexivity.
    + exists (Rejected e). rewrite <- !app_assoc. reflexivity.
  - repeat split.
    + intros Hempty. rewrite Hempty. reflexivity.
    + exists (Fulfilled tt). rewrite <- !app_assoc. reflexivity.
Qed.

(** C1, amended. Within a batch, a message whose insert the store reports
    as failed is logged and skipped (its body converting to a string for
    the log line), and the messages after it are processed.  A failure
    that is thrown is not caught: when JSON.parse,
    the insert, the embedding call or the upsert throws at a message,
    the consumer rejects with that error in the world reached at that
    point, so the messages after it are not processed. *)
Theorem reported_failure_is_skipped_thrown_failure_ends_batch
    env before m after w w1 :
  queue_loop before env w = (Fulfilled tt, w1) ->
  let run := queue {| messages := before ++ m :: after |} env w in
  (forall b,
      email_payload m b ->
      insert_reply (DB env) w1 b = InsertReportsFailure ->
      converts b = true ->
      run = queue_loop after env (after_reported_failure b w1))
  /\ (forall e,
      JSON_parse (body m) = Rejected e ->
      run = (Rejected e, w1))
  /\ (forall b e,
      email_payload m b ->
      insert_reply (DB env) w1 b = InsertThrows e ->
      run = (Rejected e, record_call (CallInsert b (Rejected e)) w1))
  /\ (forall b e,
      email_payload m b ->
      insert_reply (DB env) w1 b = InsertCommits ->
      embed_reply (AI env) (after_commit b w1) [b] = Rejected e ->
      run = (Rejected e, record_call (CallEmbed [b] (Rejected e)) (after_commit b w1)))
  /\ (forall b output e,
      email_payload m b ->
      insert_reply (DB env) w1 b = InsertCommits ->
      embed_reply (AI env) (after_commit b w1) [b] = Fulfilled output ->
      let embedded := record_call (CallEmbed [b] (Fulfilled output)) (after_commit b w1) in
      let vectors := [vector_for (new_row b w1) output] in
      upsert_fault (VECTORIZE_INDEX env) embedded vectors = Some e ->
      run = (Rejected e, record_call (CallUpsert vectors (Rejected e)) embedded)).
Proof.
  intros Hbefore run.
  assert (Hrun : run = match queue_message m env w1 with
                       | (Fulfilled _, w2) => queue_loop after env w2
                       | (Rejected e, w2) => (Rejected e, w2)
                       end).
  { subst run. unfold queue. simpl messages.
    rewrite queue_loop_app, Hbefore. apply queue_loop_cons. }
  rewrite Hrun. repeat split.
  - intros b Hemail Hfails Hconverts.
    rewrite (queue_message_email _ _ _ _ Hemail).
    now rewrite (store_and_index_reported_failure _ _ _ Hfails Hconverts).
  - intros e Hparse. unfold queue_message, bind, settle. now rewrite Hparse.
  - intros b e Hemail Hthrows.
    rewrite (queue_message_email _ _ _ _ Hemail).
    now rewrite (store_and_index_insert_throws _ _ _ _ Hthrows).
  - intros b e Hemail Hcommits Hembed.
    rewrite (queue_message_email _ _ _ _ Hemail).
    rewrite (store_and_index_commits _ _ _ Hcommits).
    unfold bind, Ai_run_embedding. now rewrite Hembed.
  - intros b output e Hemail Hcommits Hembed embedded vectors Hupsert.
    rewrite (queue_message_email _ _ _ _ Hemail).
    rewrite (store_and_index_commits _ _ _ Hcommits).
    unfold bind, Ai_run_embedding. rewrite Hembed. fold embedded. fold vectors.
    unfold Vectorize_upsert. now rewrite Hupsert.
Qed.

End QueueClaims.

Section QueueScenarios.
Import Doubles Fixtures.

Lemma first_is_email :
  email_payload (runtime := known) (message_of first_email) (JStr "Meeting at 3pm").
Proof. exists first_email. repeat split. Qed.

Lemma second_is_email :
  email_payload (runtime := known) (message_of second_email) (JStr "Lunch on Friday").
Proof. exists second_email. repeat split. Qed.

(** C1 as stated fails: with the embedding model down, the consumer
    rejects at the first message of a batch of two; the second message
    is never inserted and nothing is logged. *)
Lemma embedding_failure_ends_the_batch :
  let run := queue (runtime := known)
               {| messages := [message_of first_email; message_of second_email] |}
               embedding_down fresh in
  fst run = Rejected (Error "inference failed")
  /\ calls (snd run)
     = [ CallInsert (JStr "Meeting at 3pm")
           (Fulfilled {| success := true; results := [ {| returned_id := 1 |} ] |});
         CallEmbed [JStr "Meeting at 3pm"] (Rejected (Error "inference failed")) ]
  /\ map message (table_messages (snd run)) = [JStr "Meeting at 3pm"]
  /\ console (snd run) = [].
Proof. vm_compute. repeat split. Qed.

Lemma reported_failure_is_skipped_thrown_failure_ends_batch_witness :
  queue (runtime := known)
    {| messages := [message_of first_email; message_of second_email] |}
    embedding_down fresh
  = (Rejected (Error "inference failed"),
     record_call (CallEmbed [JStr "Meeting at 3pm"] (Rejected (Error "inference failed")))
       (after_commit (JStr "Meeting at 3pm") fresh)).
Proof.
  pose proof (reported_failure_is_skipped_thrown_failure_ends_batch
                (runtime := known) embedding_down
                [] (message_of first_email) [message_of second_email] fresh fresh eq_refl)
    as [_ [_ [_ [Hembedding _]]]].
  apply (Hembedding (JStr "Meeting at 3pm") (Error "inference failed"));
    [exact first_is_email | reflexivity | reflexivity].
Defined.



Lemma failed_insert_then_committed_insert_witness :
  let run := queue (runtime := known)
               {| messages := [message_of first_email; message_of second_email] |}
               first_insert_fails fresh in
  table_messages (snd run)
  = [ {| id := 1; message := JStr "Lunch on Friday"; created_at := noon |} ]
  /\ index_vectors (snd run) = [ {| vector_id := "1"; values := Some unit_vector |} ]
  /\ console (snd run) = [ FailedToInsert (JStr "Meeting at 3pm") ].
Proof.
  intros run.
  pose proof (failed_insert_then_committed_insert (runtime := known) first_insert_fails
                (message_of first_email) (message_of second_email)
                (JStr "Meeting at 3pm") (JStr "Lunch on Friday") fresh
                {| data := [unit_vector] |}
                first_is_email second_is_email eq_refl eq_refl eq_refl eq_refl)
    as [Htable _].
  split; [exact Htable | split; reflexivity].
Defined.

(** A healthy run: both emails are stored and indexed under the ids of
    their rows, the other message is only logged. *)
Example healthy_batch_is_stored_and_indexed :
  let run := queue (runtime := known)
               {| messages := [message_of first_email; message_of text_message;
                               message_of second_email] |}
               healthy fresh in
  fst run = Fulfilled tt
  /\ map id (table_messages (snd run)) = [1%Z; 2%Z]
  /\ map vector_id (index_vectors (snd run)) = ["1"; "2"]
  /\ console (snd run) = [UnknownMessageType (JStr "sms")].
Proof. vm_compute. repeat split. Qed.

(** With the index down the row of the first message stays stored and
    unindexed, and the consumer rejects. *)
Example index_failure_keeps_the_row :
  let run := queue (runtime := known)
               {| messages := [message_of first_email; message_of second_email] |}
               index_down fresh in
  fst run = Rejected (Error "index unavailable")
  /\ map message (table_messages (snd run)) = [JStr "Meeting at 3pm"]
  /\ index_vectors (snd run) = [].
Proof. vm_compute. repeat split. Qed.

(** A text that is not JSON makes the consumer reject. *)
Example malformed_payload_rejects :
  fst (queue (runtime := known) {| messages := [ {| body := "not json" |} ] |} healthy fresh)
  = Rejected (SyntaxError "Unexpected token").
Proof. reflexivity. Qed.

End QueueScenarios.

(* ================================================================== *)
(** ** Further properties of the handlers *)
(* ================================================================== *)

(** *** The email handler: failures, frame, HTML only *)

Section EmailFurther.
Context {runtime : Runtime}.

(** X1. When the raw stream fails, or the MIME parser rejects the text
    read, the email handler rejects with that error and leaves the world
    as it was: nothing is sent to the queue. *)
Theorem email_fails_before_send message env w :
  (forall e, stream_error (raw message) = Some e ->
             email message env w = (Rejected e, w))
  /\ (forall e, stream_error (raw message) = None ->
                PostalMime_parse (decoded (chunks (raw message))) = Rejected e ->
                email message env w = (Rejected e, w)).
Proof.
  split.
  - intros e Hstream. unfold email. rewrite Hstream.
    now rewrite (bind_rejected _ _ _ _ _ (read_all_failed _ _ _ _)).
  - intros e Hstream Hparse. unfold email. rewrite Hstream.
    rewrite (bind_fulfilled _ _ _ _ _ (read_all_done _ _ _)). simpl.
    unfold bind, settle. now rewrite Hparse.
Qed.

(** X2. The email handler touches nothing but the queue: the table, the
    index, the console and the clock stay as they are; it makes no
    binding call, or the one send, and the backlog grows by that payload
    exactly when the send is accepted. *)
Theorem email_touches_only_the_queue message env w :
  let w' := snd (email message env w) in
  clock w' = clock w
  /\ table_messages w' = table_messages w
  /\ index_vectors w' = index_vectors w
  /\ console w' = console w
  /\ ((calls w' = calls w /\ queue_backlog w' = queue_backlog w)
      \/ (exists payload,
             calls w' = calls w ++ [CallSend payload (Fulfilled tt)]
             /\ queue_backlog w' = queue_backlog w ++ [payload])
      \/ (exists payload e,
             calls w' = calls w ++ [CallSend payload (Rejected e)]
             /\ queue_backlog w' = queue_backlog w)).
Proof.
  intros w'. subst w'. unfold email.
  destruct (stream_error (raw message)) as [e|].
  - rewrite (bind_rejected _ _ _ _ _ (read_all_failed _ _ _ _)). simpl. tauto.
  - rewrite (bind_fulfilled _ _ _ _ _ (read_all_done _ _ _)). simpl.
    unfold bind, settle.
    destruct (PostalMime_parse _) as [parsedEmail|e]; [|simpl; tauto].
    unfold Queue_send. destruct (send_fault _ _ _) as [e|]; simpl.
    + repeat split. right; right. eexists. eexists. split; reflexivity.
    + repeat split. right; left. eexists. split; reflexivity.
Qed.

(** X3. For every raw email with an HTML body and no plain-text body,
    the payload put on the queue carries the HTML body. *)
Theorem html_only_body_is_enqueued message env w parsedEmail markup :
  stream_error (raw message) = None ->
  PostalMime_parse (decoded (chunks (raw message))) = Fulfilled parsedEmail ->
  text parsedEmail = None ->
  html parsedEmail = Some markup ->
  email message env w
  = Queue_send env (JSON_stringify [("type", JStr "email"); ("body", JStr markup)]) w.
Proof.
  intros Hstream Hparse Htext Hhtml.
  rewrite (email_sends _ _ _ _ Hstream Hparse).
  unfold payload_of, js_or. now rewrite Htext, Hhtml.
Qed.

End EmailFurther.

(* ------------------------------------------------------------------ *)
(** *** The summarizer and the routes of fetch *)

(** The whole run of the summarizer, by what the store and the model
    answer. *)
Lemma generateSummary_run env w :
  generateSummary env w
  = match select_fault (DB env) w SelectMessages with
    | Some e => (Rejected e, record_call (CallSelect SelectMessages (Rejected e)) w)
    | None =>
        let selected := {| success := true; results := table_messages w |} in
        let asked := record_call (CallSelect SelectMessages (Fulfilled selected)) w in
        let messages := prompt (table_messages w) in
        match chat_reply (AI env) asked messages with
        | Fulfilled output =>
            (Fulfilled (response output),
             record_call (CallChat messages (Fulfilled output)) asked)
        | Rejected e =>
            (Rejected e, record_call (CallChat messages (Rejected e)) asked)
        end
    end.
Proof.
  unfold generateSummary, bind, D1_select, Ai_run_chat, ret.
  destruct (select_fault (DB env) w SelectMessages) as [e|]; simpl; [reflexivity|].
  destruct (chat_reply _ _ _); reflexivity.
Qed.

(** The run of the listing route. *)
Lemma listing_run env w :
  fetch {| pathname := "/" |} env w
  = let oneDayAgo := (clock w - 86400000)%Z in
    match select_fault (DB env) w (SelectMessagesAfter oneDayAgo) with
    | None =>
        let listed := filter (fun r => (oneDayAgo <? created_at r)%Z) (table_messages w) in
        (Fulfilled (Response_of_rows listed),
         record_call
           (CallSelect (SelectMessagesAfter oneDayAgo)
              (Fulfilled {| success := true; results := listed |})) w)
    | Some e =>
        (Fulfilled (Response_of_text (error_message e)),
         record_call (CallSelect (SelectMessagesAfter oneDayAgo) (Rejected e)) w)
    end.
Proof.
  unfold fetch. simpl. unfold try_catch, bind, Date_now, D1_select, ret.
  change (24 * 60 * 60 * 1000)%Z with 86400000%Z.
  destruct (select_fault _ _ _); reflexivity.
Qed.

(** The run of every other route. *)
Lemma summary_route_run request env w :
  pathname request <> "/" ->
  fetch request env w
  = match generateSummary env w with
    | (Fulfilled summary, w') => (Fulfilled (Response_of_summary summary), w')
    | (Rejected e, w') => (Rejected e, w')
    end.
Proof.
  intros Hpath. unfold fetch. apply String.eqb_neq in Hpath. now rewrite Hpath.
Qed.

Lemma concat_of_strings sep bodies :
  Array_join sep (map JStr bodies) = String.concat sep bodies.
Proof.
  induction bodies as [|x [|y rest] IH]; simpl; try reflexivity.
  simpl in IH. now rewrite IH.
Qed.

(** X4. The summarizer only reads: it leaves the clock, the table, the
    index, the backlog and the console as they are.  It first selects
    all messages; when the store rejects it rejects with that error and
    the chat model is not called; otherwise it calls the chat model once,
    with the prompt over every row of the table, and settles as the model
    does. *)
Theorem summary_only_reads env w :
  let run := generateSummary env w in
  let w' := snd run in
  (clock w' = clock w
   /\ table_messages w' = table_messages w
   /\ index_vectors w' = index_vectors w
   /\ queue_backlog w' = queue_backlog w
   /\ console w' = console w)
  /\ ((exists e,
          select_fault (DB env) w SelectMessages = Some e
          /\ fst run = Rejected e
          /\ calls w' = calls w ++ [CallSelect SelectMessages (Rejected e)])
      \/ (exists reply,
             select_fault (DB env) w SelectMessages = None
             /\ calls w'
                = calls w
                  ++ [ CallSelect SelectMessages
                         (Fulfilled {| success := true; results := table_messages w |});
                       CallChat (prompt (table_messages w)) reply ]
             /\ fst run = match reply with
                          | Fulfilled output => Fulfilled (response output)
                          | Rejected e => Rejected e
                          end)).
Proof.
  intros run w'. subst w' run. rewrite generateSummary_run.
  destruct (select_fault (DB env) w SelectMessages) as [e|].
  - split; [simpl; tauto|]. left. exists e. repeat split.
  - cbv zeta.
    destruct (chat_reply _ _ _) as [output|e] eqn:Hchat.
    + split; [simpl; tauto|]. right. exists (Fulfilled output).
      repeat split. simpl. now rewrite <- app_assoc.
    + split; [simpl; tauto|]. right. exists (Rejected e).
      repeat split. simpl. now rewrite <- app_assoc.
Qed.

(** X5. When the stored messages are strings, the fourth turn of the
    prompt is its heading followed by those strings in the order of the
    table, joined by newlines; the prompt has five turns whatever the
    rows. *)
Theorem prompt_lists_bodies_in_order rows bodies :
  map message rows = map JStr bodies ->
  nth_error (prompt rows) 3
  = Some {| role := "system";
            content := ("Here are the emails for today: "
                        ++ String.concat newline bodies)%string |}
  /\ List.length (prompt rows) = 5%nat.
Proof.
  intros Hbodies. split; [|reflexivity].
  unfold prompt. simpl nth_error. now rewrite Hbodies, concat_of_strings.
Qed.

(** X6. The listing route never rejects: when the store answers it
    responds with the rows created after one day before now, and when
    the store throws it responds with the message of the error. *)
Theorem listing_never_rejects env w :
  fst (fetch {| pathname := "/" |} env w)
  = match select_fault (DB env) w (SelectMessagesAfter (clock w - 86400000)) with
    | None =>
        Fulfilled
          (Response_of_rows
             (filter (fun r => (clock w - 86400000 <? created_at r)%Z) (table_messages w)))
    | Some e => Fulfilled (Response_of_text (error_message e))
    end.
Proof.
  rewrite listing_run. cbv zeta. destruct (select_fault _ _ _); reflexivity.
Qed.

(** X7. On every route other than the root nothing is caught: when the
    store throws on the select, fetch rejects with that error before the
    chat model is called, and when the chat model throws, fetch rejects
    with its error. *)
Theorem summary_route_does_not_catch request env w :
  pathname request <> "/" ->
  (forall e,
      select_fault (DB env) w SelectMessages = Some e ->
      fetch request env w
      = (Rejected e, record_call (CallSelect SelectMessages (Rejected e)) w))
  /\ (forall e,
      select_fault (DB env) w SelectMessages = None ->
      chat_reply (AI env)
        (record_call
           (CallSelect SelectMessages
              (Fulfilled {| success := true; results := table_messages w |})) w)
        (prompt (table_messages w)) = Rejected e ->
      fst (fetch request env w) = Rejected e).
Proof.
  intros Hpath. split.
  - intros e Hselect. rewrite (summary_route_run _ _ _ Hpath), generateSummary_run.
    now rewrite Hselect.
  - intros e Hselect Hchat. rewrite (summary_route_run _ _ _ Hpath), generateSummary_run.
    rewrite Hselect. cbv zeta. now rewrite Hchat.
Qed.

(** X8. No route of fetch writes: whatever the request, the table, the
    index, the backlog, the console and the clock are left as they
    are. *)
Theorem fetch_never_writes request env w :
  let w' := snd (fetch request env w) in
  clock w' = clock w
  /\ table_messages w' = table_messages w
  /\ index_vectors w' = index_vectors w
  /\ queue_backlog w' = queue_backlog w
  /\ console w' = console w.
Proof.
  intros w'. subst w'.
  destruct (String.eqb_spec (pathname request) "/") as [Hroot|Hother].
  - destruct request as [path]. simpl in Hroot. subst path.
    rewrite listing_run. cbv zeta. destruct (select_fault _ _ _); simpl; tauto.
  - rewrite (summary_route_run _ _ _ Hother), generateSummary_run.
    destruct (select_fault _ _ _); [simpl; tauto|]. cbv zeta.
    destruct (chat_reply _ _ _); simpl; tauto.
Qed.

(* ------------------------------------------------------------------ *)
(** *** The queue consumer: what a run adds and what it leaves *)

Section ConsumerFrame.
Context {runtime : Runtime}.

Lemma consumed_refl w : consumed 0 w w.
Proof.
  repeat split. exists [], [], []. rewrite !app_nil_r. repeat split; auto.
Qed.

Lemma consumed_trans n m w1 w2 w3 :
  consumed n w1 w2 -> consumed m w2 w3 -> consumed (n + m) w1 w3.
Proof.
  intros [Hclock12 [Hqueue12 [a12 [l12 [t12 [Ha12 [Hl12 [Ht12 [Hn12 [Hc12 [Hat12 Hcalls12]]]]]]]]]]]
         [Hclock23 [Hqueue23 [a23 [l23 [t23 [Ha23 [Hl23 [Ht23 [Hn23 [Hc23 [Hat23 Hcalls23]]]]]]]]]]].
  repeat split; try congruence.
  exists (a12 ++ a23), (l12 ++ l23), (t12 ++ t23).
  rewrite Ha23, Ha12, Hl23, Hl12, Ht23, Ht12, !app_assoc, !length_app.
  repeat split; try lia.
  - apply Forall_app. split; [assumption|].
    rewrite Hclock12 in Hat23. exact Hat23.
  - apply Forall_app. now split.
Qed.

(** One message: at most a row or a line, at most three calls. *)
Lemma consumed_one w w' added lines trace :
  clock w' = clock w ->
  queue_backlog w' = queue_backlog w ->
  table_messages w' = table_messages w ++ added ->
  console w' = console w ++ lines ->
  calls w' = calls w ++ trace ->
  (List.length added + List.length lines <= 1)%nat ->
  (List.length trace <= 3)%nat ->
  Forall (fun row => created_at row = clock w) added ->
  Forall consumer_call trace ->
  consumed 1 w w'.
Proof.
  intros. repeat split; try assumption.
  exists added, lines, trace. repeat split; auto.
Qed.

Lemma store_and_index_consumed env b w :
  consumed 1 w (snd (store_and_index env b w)).
Proof.
  destruct (insert_reply (DB env) w b) as [| |e] eqn:Hreply.
  - rewrite (store_and_index_commits _ _ _ Hreply).
    unfold bind, Ai_run_embedding.
    destruct (embed_reply (AI env) (after_commit b w) [b]) as [output|e].
    + unfold Vectorize_upsert. destruct (upsert_fault _ _ _) as [e|].
      * apply (consumed_one _ _ [new_row b w] []
                 [CallInsert b (Fulfilled (commit_reply (new_row b w)));
                  CallEmbed [b] (Fulfilled output);
                  CallUpsert [vector_for (new_row b w) output] (Rejected e)]);
          read_world; try reflexivity; try lia;
          try (now rewrite app_nil_r); try (now rewrite <- !app_assoc);
          repeat constructor.
      * apply (consumed_one _ _ [new_row b w] []
                 [CallInsert b (Fulfilled (commit_reply (new_row b w)));
                  CallEmbed [b] (Fulfilled output);
                  CallUpsert [vector_for (new_row b w) output] (Fulfilled tt)]);
          read_world; try reflexivity; try lia;
          try (now rewrite app_nil_r); try (now rewrite <- !app_assoc);
          repeat constructor.
    + apply (consumed_one _ _ [new_row b w] []
               [CallInsert b (Fulfilled (commit_reply (new_row b w)));
                CallEmbed [b] (Rejected e)]);
        read_world; try reflexivity; try lia;
        try (now rewrite app_nil_r); try (now rewrite <- !app_assoc);
        repeat constructor.
  - rewrite (store_and_index_reports _ _ _ Hreply). destruct (converts b).
    + apply (consumed_one _ _ [] [FailedToInsert b] [CallInsert b (Fulfilled failure_reply)]);
        read_world; try reflexivity; try lia;
        try (now rewrite app_nil_r); repeat constructor.
    + apply (consumed_one _ _ [] [] [CallInsert b (Fulfilled failure_reply)]);
        read_world; try reflexivity; try lia;
        try (now rewrite app_nil_r); repeat constructor.
  - rewrite (store_and_index_insert_throws _ _ _ _ Hreply).
    apply (consumed_one _ _ [] [] [CallInsert b (Rejected e)]);
      read_world; try reflexivity; try lia;
      try (now rewrite app_nil_r); repeat constructor.
Qed.

Lemma queue_message_consumed m env w :
  consumed 1 w (snd (queue_message m env w)).
Proof.
  destruct (queue_message_shape m env w) as [[e H] | [[line H] | [b H]]]; rewrite H.
  - apply (consumed_one _ _ [] [] []); simpl; try reflexivity; try lia;
      try (now rewrite app_nil_r); constructor.
  - apply (consumed_one _ _ [] [line] []); simpl; try reflexivity; try lia;
      try (now rewrite app_nil_r); constructor.
  - apply store_and_index_consumed.
Qed.

Lemma queue_loop_consumed batch env w :
  consumed (List.length batch) w (snd (queue_loop batch env w)).
Proof.
  revert w. induction batch as [|m rest IH]; intros w.
  - apply consumed_refl.
  - rewrite queue_loop_cons.
    pose proof (queue_message_consumed m env w) as Hstep.
    destruct (queue_message m env w) as [[[]|e] w1]; simpl in Hstep.
    + apply (consumed_trans 1 (List.length rest) _ _ _ Hstep (IH w1)).
    + destruct Hstep as [Hclock [Hqueue [added [lines [trace H]]]]].
      repeat split; try assumption. exists added, lines, trace.
      simpl List.length. intuition lia.
Qed.

(** X9. A run of the consumer over a batch only appends: it leaves the
    rows of the table in place and adds rows after them, each stamped
    with the clock, and it adds lines to the console; rows and lines
    together are at most one per message.  It makes at most three
    binding calls per message, none of them a select, a chat or a send,
    and leaves the backlog and the clock as they are. *)
Theorem consumer_only_appends batch env w :
  let w' := snd (queue batch env w) in
  clock w' = clock w
  /\ queue_backlog w' = queue_backlog w
  /\ exists added lines trace,
       table_messages w' = table_messages w ++ added
       /\ console w' = console w ++ lines
       /\ calls w' = calls w ++ trace
       /\ (List.length added + List.length lines <= List.length (messages batch))%nat
       /\ (List.length trace <= 3 * List.length (messages batch))%nat
       /\ Forall (fun row => created_at row = clock w) added
       /\ Forall consumer_call trace.
Proof. intros w'. apply (queue_loop_consumed (messages batch) env w). Qed.

End ConsumerFrame.

(* ------------------------------------------------------------------ *)
(** *** The queue consumer: payloads, partial success, healthy runs *)

Section ConsumerFurther.
Context {runtime : Runtime}.

(** Once the insert commits the row is in the table, whatever the
    embedding call and the upsert do. *)
Lemma committed_row_stays env b w :
  insert_reply (DB env) w b = InsertCommits ->
  table_messages (snd (store_and_index env b w)) = table_messages w ++ [new_row b w].
Proof.
  intros Hreply. rewrite (store_and_index_commits _ _ _ Hreply).
  unfold bind, Ai_run_embedding.
  destruct (embed_reply _ _ _); [|reflexivity].
  unfold Vectorize_upsert. destruct (upsert_fault _ _ _); reflexivity.
Qed.

(** With bindings that always answer, a body is stored and indexed. *)
Lemma store_and_index_answers env b w :
  always_answers env ->
  exists output,
    store_and_index env b w
    = (Fulfilled tt,
       record_call (CallUpsert [vector_for (new_row b w) output] (Fulfilled tt))
         (index_all [vector_for (new_row b w) output]
            (record_call (CallEmbed [b] (Fulfilled output)) (after_commit b w)))).
Proof.
  intros [Hinsert [Hembed Hupsert]].
  rewrite (store_and_index_commits _ _ _ (Hinsert w b)).
  destruct (Hembed (after_commit b w) [b]) as [output Houtput].
  exists output. unfold bind, Ai_run_embedding. rewrite Houtput.
  unfold Vectorize_upsert. now rewrite Hupsert.
Qed.

Lemma next_id_above rows row :
  In row rows -> (id row < next_id rows)%Z.
Proof.
  unfold next_id. induction rows as [|r rows IH]; cbn [fold_right In]; [intros []|].
  intros [<- | Hin]; [lia | specialize (IH Hin); lia].
Qed.

Lemma lookup_absent k props :
  (forall v, ~ In (k, v) props) -> lookup k props = JUndefined.
Proof.
  induction props as [|[k' v'] props IH]; simpl; [reflexivity|].
  intros Habsent. destruct (String.eqb_spec k' k) as [->|_].
  - exfalso. apply (Habsent v'). now left.
  - apply IH. intros v Hin. apply (Habsent v). now right.
Qed.

(** The first binding call of the stored branch is the insert. *)
Lemma store_and_index_inserts_first env b w :
  exists reply rest,
    calls (snd (store_and_index env b w)) = calls w ++ CallInsert b reply :: rest.
Proof.
  destruct (insert_reply (DB env) w b) as [| |e] eqn:Hreply.
  - rewrite (store_and_index_commits _ _ _ Hreply).
    unfold bind, Ai_run_embedding.
    destruct (embed_reply _ _ _) as [output|e].
    + unfold Vectorize_upsert. destruct (upsert_fault _ _ _) as [e|];
        eexists; eexists; read_world; rewrite <- !app_assoc; reflexivity.
    + eexists; eexists; read_world; rewrite <- !app_assoc; reflexivity.
  - rewrite (store_and_index_reports _ _ _ Hreply).
    destruct (converts b); eexists; exists []; reflexivity.
  - rewrite (store_and_index_insert_throws _ _ _ _ Hreply).
    eexists; exists []; reflexivity.
Qed.

(** X10. Partial success persists: when the insert of a message has
    committed and the embedding call, or after it the upsert, throws,
    the consumer rejects with that error, the row of the message stays in
    the table and the index is left without a vector for it. *)
Theorem stored_row_survives_indexing_failure env before m after w w1 b :
  queue_loop before env w = (Fulfilled tt, w1) ->
  email_payload m b ->
  insert_reply (DB env) w1 b = InsertCommits ->
  let run := queue {| messages := before ++ m :: after |} env w in
  let row := new_row b w1 in
  (forall e,
      embed_reply (AI env) (after_commit b w1) [b] = Rejected e ->
      fst run = Rejected e
      /\ table_messages (snd run) = table_messages w1 ++ [row]
      /\ index_vectors (snd run) = index_vectors w1)
  /\ (forall output e,
      embed_reply (AI env) (after_commit b w1) [b] = Fulfilled output ->
      upsert_fault (VECTORIZE_INDEX env)
        (record_call (CallEmbed [b] (Fulfilled output)) (after_commit b w1))
        [vector_for row output] = Some e ->
      fst run = Rejected e
      /\ table_messages (snd run) = table_messages w1 ++ [row]
      /\ index_vectors (snd run) = index_vectors w1).
Proof.
  intros Hbefore Hemail Hcommits run row.
  assert (Hrun : run = match store_and_index env b w1 with
                       | (Fulfilled _, w2) => queue_loop after env w2
                       | (Rejected e, w2) => (Rejected e, w2)
                       end).
  { subst run. unfold queue. simpl messages.
    rewrite queue_loop_app, Hbefore, queue_loop_cons.
    now rewrite (queue_message_email _ _ _ _ Hemail). }
  rewrite Hrun, (store_and_index_commits _ _ _ Hcommits).
  unfold bind, Ai_run_embedding. split.
  - intros e Hembed. rewrite Hembed. repeat split.
  - intros output e Hembed Hupsert. rewrite Hembed.
    unfold Vectorize_upsert. fold row. rewrite Hupsert. repeat split.
Qed.

(** X11. With bindings that always answer and a batch whose bodies all
    are JSON texts of values other than null, with types that convert
    to strings, the consumer fulfils; the
    messages it has added to the table are the bodies of the messages of
    type email, in the order of the batch, and the lines it has added to
    the console are the types of the other messages, in order. *)
Theorem healthy_batch_stores_email_bodies_in_order batch env w :
  always_answers env ->
  Forall loggable (messages batch) ->
  let run := queue batch env w in
  fst run = Fulfilled tt
  /\ map message (table_messages (snd run))
     = map message (table_messages w) ++ email_bodies (messages batch)
  /\ console (snd run) = console w ++ other_types (messages batch).
Proof.
  intros Henv Hbatch run. subst run. unfold queue.
  revert w.
  induction Hbatch as [|m rest [v [Hparse [Hdef [Hnull Hconverts]]]] _ IH]; intros w.
  - simpl. rewrite !app_nil_r. repeat split.
  - rewrite queue_loop_cons, (queue_message_destructures _ _ _ _ Hparse Hdef Hnull).
    rewrite Hconverts.
    unfold email_bodies, other_types. simpl flat_map. rewrite Hparse.
    fold (email_bodies rest). fold (other_types rest).
    destruct (strict_equals_string (Get v "type") "email").
    + destruct (store_and_index_answers env (Get v "body") w Henv) as [output ->].
      destruct (IH (record_call (CallUpsert [vector_for (new_row (Get v "body") w) output]
                                   (Fulfilled tt))
                      (index_all [vector_for (new_row (Get v "body") w) output]
                         (record_call (CallEmbed [Get v "body"] (Fulfilled output))
                            (after_commit (Get v "body") w)))))
        as [Hdone [Htable Hconsole]].
      repeat split; [exact Hdone | | exact Hconsole].
      rewrite Htable. read_world. rewrite map_app. simpl. now rewrite <- app_assoc.
    + destruct (IH (write_console (UnknownMessageType (Get v "type")) w))
        as [Hdone [Htable Hconsole]].
      repeat split; [exact Hdone | exact Htable |].
      rewrite Hconsole. simpl. now rewrite <- app_assoc.
Qed.

(** X12. The consumer does not look for a message it has stored before:
    the same email message twice in a batch, with bindings that always
    answer, leaves two rows with that body, under two different ids. *)
Theorem redelivered_message_is_stored_twice env m b w :
  email_payload m b ->
  always_answers env ->
  let w' := snd (queue {| messages := [m; m] |} env w) in
  exists first second,
    table_messages w' = table_messages w ++ [first; second]
    /\ message first = b
    /\ message second = b
    /\ id first <> id second.
Proof.
  intros Hemail Henv w'. subst w'. unfold queue. simpl messages.
  rewrite queue_loop_cons, (queue_message_email _ _ _ _ Hemail).
  destruct (store_and_index_answers env b w Henv) as [output ->].
  set (w1 := record_call _ _).
  rewrite queue_loop_cons, (queue_message_email _ _ _ _ Hemail).
  destruct (store_and_index_answers env b w1 Henv) as [output1 ->].
  exists (new_row b w), (new_row b w1).
  assert (Htable : table_messages w1 = table_messages w ++ [new_row b w]) by reflexivity.
  repeat split.
  - change (table_messages w1 ++ [new_row b w1]
            = table_messages w ++ [new_row b w; new_row b w1]).
    rewrite Htable. now rewrite <- app_assoc.
  - assert (Hlt : (id (new_row b w) < id (new_row b w1))%Z).
    { change (id (new_row b w) < next_id (table_messages w1))%Z.
      apply next_id_above. rewrite Htable. apply in_elt. }
    lia.
Qed.

(** X13. A message of type email whose payload has no body property is
    not skipped: the consumer goes on to the store and binds undefined to
    the insert. *)
Theorem email_without_body_is_inserted_as_undefined env m w props :
  JSON_parse (body m) = Fulfilled (JObj props) ->
  lookup "type" props = JStr "email" ->
  (forall v, ~ In ("body", v) props) ->
  queue_message m env w = store_and_index env JUndefined w
  /\ exists reply rest,
       calls (snd (queue_message m env w)) = calls w ++ CallInsert JUndefined reply :: rest.
Proof.
  intros Hparse Htype Habsent.
  assert (Hstep : queue_message m env w = store_and_index env JUndefined w).
  { apply queue_message_email. exists props.
    repeat split; [assumption | assumption | now apply lookup_absent]. }
  split; [exact Hstep|]. rewrite Hstep. apply store_and_index_inserts_first.
Qed.

(** X14. A message whose payload is the JSON value null is not skipped
    as an unknown type: destructuring it throws a TypeError, the
    consumer rejects at that message in the world it has reached, and
    the messages after it are not processed. *)
Theorem null_payload_rejects env before m after w w1 :
  queue_loop before env w = (Fulfilled tt, w1) ->
  JSON_parse (body m) = Fulfilled JNull ->
  exists msg,
    queue {| messages := before ++ m :: after |} env w = (Rejected (TypeError msg), w1).
Proof.
  intros Hbefore Hparse. eexists. unfold queue. simpl messages.
  rewrite queue_loop_app, Hbefore, queue_loop_cons.
  unfold queue_message.
  rewrite (bind_fulfilled _ _ w1 JNull w1) by (unfold settle; now rewrite Hparse).
  reflexivity.
Qed.

(** X15. From ingestion to the store: for an email with a non-empty
    plain text that the queue accepts, the backlog gains the payload; and
    when the runtime parses that payload back to the object it
    serializes, a consumer given the payload whose insert commits adds
    the row with that plain text as its message. *)
Theorem enqueued_email_is_stored_with_its_text
    message producer consumer w parsedEmail plain :
  stream_error (raw message) = None ->
  PostalMime_parse (decoded (chunks (raw message))) = Fulfilled parsedEmail ->
  text parsedEmail = Some plain ->
  plain <> EmptyString ->
  let payload := JSON_stringify (QueuedMessage (JStr plain)) in
  send_fault (QUEUE producer) w payload = None ->
  JSON_parse payload = Fulfilled (JObj (QueuedMessage (JStr plain))) ->
  queue_backlog (snd (email message producer w)) = queue_backlog w ++ [payload]
  /\ forall w2,
       insert_reply (DB consumer) w2 (JStr plain) = InsertCommits ->
       table_messages (snd (queue {| messages := [ {| body := payload |} ] |} consumer w2))
       = table_messages w2 ++ [new_row (JStr plain) w2].
Proof.
  intros Hstream Hparse Htext Hfull payload Hsend Hback. split.
  - rewrite (email_sends _ _ _ _ Hstream Hparse).
    assert (Hpayload : payload_of parsedEmail = payload).
    { unfold payload_of, js_or. rewrite Htext. simpl.
      apply String.eqb_neq in Hfull. now rewrite Hfull. }
    rewrite Hpayload. unfold Queue_send. now rewrite Hsend.
  - intros w2 Hcommits. unfold queue. simpl messages. rewrite queue_loop_cons.
    assert (Hemail : email_payload {| body := payload |} (JStr plain)).
    { exists (QueuedMessage (JStr plain)). repeat split. exact Hback. }
    rewrite (queue_message_email _ _ _ _ Hemail).
    pose proof (committed_row_stays consumer (JStr plain) w2 Hcommits) as Hrow.
    destruct (store_and_index consumer (JStr plain) w2) as [[[]|e] w3]; exact Hrow.
Qed.

End ConsumerFurther.

(* ------------------------------------------------------------------ *)
(** *** The queue consumer: every message accounted for, rows indexed *)

Section ConsumerAccounts.
Context {runtime : Runtime}.

Lemma store_and_index_fulfilled_accounts env b w w1 :
  store_and_index env b w = (Fulfilled tt, w1) ->
  exists added lines,
    table_messages w1 = table_messages w ++ added
    /\ console w1 = console w ++ lines
    /\ (List.length added + List.length lines = 1)%nat.
Proof.
  destruct (insert_reply (DB env) w b) as [| |e] eqn:Hreply.
  - rewrite (store_and_index_commits _ _ _ Hreply).
    unfold bind, Ai_run_embedding.
    destruct (embed_reply _ _ _) as [output|e]; [|discriminate].
    unfold Vectorize_upsert. destruct (upsert_fault _ _ _) as [e|]; [discriminate|].
    intros Hrun. injection Hrun as <-.
    exists [new_row b w], []. read_world. now rewrite app_nil_r.
  - rewrite (store_and_index_reports _ _ _ Hreply).
    destruct (converts b); [|discriminate].
    intros Hrun. injection Hrun as <-.
    exists [], [FailedToInsert b]. read_world. now rewrite app_nil_r.
  - rewrite (store_and_index_insert_throws _ _ _ _ Hreply). discriminate.
Qed.

Lemma queue_message_fulfilled_accounts m env w w1 :
  queue_message m env w = (Fulfilled tt, w1) ->
  exists added lines,
    table_messages w1 = table_messages w ++ added
    /\ console w1 = console w ++ lines
    /\ (List.length added + List.length lines = 1)%nat.
Proof.
  destruct (queue_message_shape m env w) as [[e H] | [[line H] | [b H]]]; rewrite H.
  - discriminate.
  - intros Hrun. injection Hrun as <-.
    exists [], [line]. simpl. now rewrite app_nil_r.
  - apply store_and_index_fulfilled_accounts.
Qed.

Lemma queue_loop_fulfilled_accounts batch env w w' :
  queue_loop batch env w = (Fulfilled tt, w') ->
  exists added lines,
    table_messages w' = table_messages w ++ added
    /\ console w' = console w ++ lines
    /\ (List.length added + List.length lines = List.length batch)%nat.
Proof.
  revert w. induction batch as [|m rest IH]; intros w.
  - simpl. unfold ret. intros Hrun. injection Hrun as <-.
    exists [], []. now rewrite !app_nil_r.
  - rewrite queue_loop_cons.
    destruct (queue_message m env w) as [[[]|e] w1] eqn:Hstep; [|discriminate].
    intros Hrest.
    destruct (queue_message_fulfilled_accounts _ _ _ _ Hstep)
      as [a1 [l1 [Ha1 [Hl1 Hn1]]]].
    destruct (IH _ Hrest) as [a2 [l2 [Ha2 [Hl2 Hn2]]]].
    exists (a1 ++ a2), (l1 ++ l2).
    rewrite Ha2, Ha1, Hl2, Hl1, !app_assoc, !length_app. simpl List.length.
    repeat split. lia.
Qed.

(** X18. A run of the consumer that fulfils has accounted for every
    message of the batch: the rows it has added to the table and the
    lines it has written to the console are together exactly as many as
    the messages. *)
Theorem fulfilled_run_accounts_for_every_message batch env w :
  fst (queue batch env w) = Fulfilled tt ->
  exists added lines,
    table_messages (snd (queue batch env w)) = table_messages w ++ added
    /\ console (snd (queue batch env w)) = console w ++ lines
    /\ (List.length added + List.length lines = List.length (messages batch))%nat.
Proof.
  unfold queue. intros Hdone.
  destruct (queue_loop (messages batch) env w) as [o w'] eqn:Hrun.
  simpl in Hdone. subst o. apply (queue_loop_fulfilled_accounts _ _ _ _ Hrun).
Qed.

(** X19. When the insert of a message commits, the embedding call
    answers and the upsert is accepted, then right after that message
    the table holds its row and the index holds, under the id of the
    row as a string, the first vector of the embedding output (no values
    when the output has no vector). *)
Theorem stored_message_is_indexed_under_its_id env before m w w1 b output :
  queue_loop before env w = (Fulfilled tt, w1) ->
  email_payload m b ->
  insert_reply (DB env) w1 b = InsertCommits ->
  embed_reply (AI env) (after_commit b w1) [b] = Fulfilled output ->
  upsert_fault (VECTORIZE_INDEX env)
    (record_call (CallEmbed [b] (Fulfilled output)) (after_commit b w1))
    [vector_for (new_row b w1) output] = None ->
  let run := queue {| messages := before ++ [m] |} env w in
  fst run = Fulfilled tt
  /\ In (new_row b w1) (table_messages (snd run))
  /\ In {| vector_id := String_of_number (id (new_row b w1));
           values := nth_error (data output) 0 |}
        (index_vectors (snd run)).
Proof.
  intros Hbefore Hemail Hcommits Hembed Hupsert run. subst run.
  unfold queue. simpl messages.
  rewrite queue_loop_app, Hbefore, queue_loop_cons.
  rewrite (queue_message_email _ _ _ _ Hemail).
  rewrite (store_and_index_commits _ _ _ Hcommits).
  unfold bind, Ai_run_embedding. rewrite Hembed.
  unfold Vectorize_upsert. rewrite Hupsert.
  repeat split; read_world.
  - apply in_elt.
  - unfold put_vector. apply in_or_app. right. now left.
Qed.

End ConsumerAccounts.

(* ------------------------------------------------------------------ *)
(** *** The scheduled handler *)

(** The whole run of [scheduled]. *)
Lemma scheduled_run net env w made :
  scheduled net env w made
  = match generateSummary env w with
    | (Rejected e, w1) => (Rejected e, w1, made)
    | (Fulfilled summary, w1) =>
        (match fetch_reply net w1 made mail_url (mail_init summary) with
         | Fulfilled _ => Fulfilled tt
         | Rejected e => Rejected e
         end,
         w1, made ++ [(mail_url, mail_init summary)])
    end.
Proof.
  unfold scheduled, global_fetch.
  destruct (generateSummary env w) as [[summary|e] w1]; [|reflexivity].
  fold (mail_body summary). fold (mail_init summary). fold mail_url.
  destruct (fetch_reply net w1 made mail_url (mail_init summary)); reflexivity.
Qed.

(** X16. When the summary cannot be made, no mail is posted: if the
    store throws on the select, or the chat model throws, [scheduled]
    rejects with that error and has made no request. *)
Theorem scheduled_posts_nothing_without_summary net env w made :
  (forall e,
      select_fault (DB env) w SelectMessages = Some e ->
      scheduled net env w made
      = (Rejected e, record_call (CallSelect SelectMessages (Rejected e)) w, made))
  /\ (forall e,
      select_fault (DB env) w SelectMessages = None ->
      chat_reply (AI env)
        (record_call
           (CallSelect SelectMessages
              (Fulfilled {| success := true; results := table_messages w |})) w)
        (prompt (table_messages w)) = Rejected e ->
      fst (fst (scheduled net env w made)) = Rejected e
      /\ snd (scheduled net env w made) = made).
Proof.
  split.
  - intros e Hselect. rewrite scheduled_run, generateSummary_run. now rewrite Hselect.
  - intros e Hselect Hchat. rewrite scheduled_run, generateSummary_run.
    rewrite Hselect. cbv zeta. rewrite Hchat. split; reflexivity.
Qed.

(** X17. When the store and the chat model answer, [scheduled] makes
    exactly one request: a POST of JSON to the mail API whose text/plain
    content is the response of the model, whatever rows the table holds,
    none included.  It fulfils whenever that request resolves, whatever
    the status of the response, and rejects only when the request
    itself rejects. *)
Theorem scheduled_posts_summary_whatever_the_status net env w made output :
  select_fault (DB env) w SelectMessages = None ->
  let asked :=
    record_call
      (CallSelect SelectMessages
         (Fulfilled {| success := true; results := table_messages w |})) w in
  chat_reply (AI env) asked (prompt (table_messages w)) = Fulfilled output ->
  let w1 := record_call (CallChat (prompt (table_messages w)) (Fulfilled output)) asked in
  let init := mail_init (response output) in
  snd (scheduled net env w made) = made ++ [(mail_url, init)]
  /\ (forall answer,
         fetch_reply net w1 made mail_url init = Fulfilled answer ->
         fst (fst (scheduled net env w made)) = Fulfilled tt)
  /\ (forall e,
         fetch_reply net w1 made mail_url init = Rejected e ->
         fst (fst (scheduled net env w made)) = Rejected e).
Proof.
  intros Hselect asked Hchat w1 init.
  rewrite scheduled_run, generateSummary_run, Hselect. cbv zeta.
  fold asked. rewrite Hchat. fold w1. fold init.
  repeat split.
  - intros answer Hanswer. simpl. now rewrite Hanswer.
  - intros e Hreject. simpl. now rewrite Hreject.
Qed.

(* ------------------------------------------------------------------ *)
(** *** Scenarios *)

Section FurtherScenarios.
Import Doubles Fixtures.

Lemma healthy_always_answers : always_answers healthy.
Proof. repeat split; intros; simpl; eauto. Qed.

Lemma first_is_email_here :
  email_payload (runtime := knowing_null) (message_of first_email) (JStr "Meeting at 3pm").
Proof. exists first_email. repeat split. Qed.

Lemma known_are_loggable :
  Forall (loggable (runtime := knowing_null))
    [message_of first_email; message_of text_message; message_of second_email].
Proof.
  repeat constructor.
  - exists (JObj first_email). repeat split; discriminate.
  - exists (JObj text_message). repeat split; discriminate.
  - exists (JObj second_email). repeat split; discriminate.
Qed.

(** The text of the mail for a summary. *)
Example mail_body_of_summary :
  mail_body "Two emails."
  = ("{" ++ in_quotes "from" ++ ":{" ++ in_quotes "name" ++ ":"
         ++ in_quotes "Email Summarizer" ++ "," ++ in_quotes "email" ++ ":"
         ++ in_quotes "no-reply@email-summarizer.signalnerve.workers.dev" ++ "},"
         ++ in_quotes "subject" ++ ":" ++ in_quotes "Your email summary for today" ++ ","
         ++ in_quotes "content" ++ ":[{" ++ in_quotes "type" ++ ":"
         ++ in_quotes "text/plain" ++ "," ++ in_quotes "value" ++ ":"
         ++ in_quotes "Two emails." ++ "}]}")%string.
Proof. reflexivity. Qed.

Lemma email_fails_before_send_witness :
  email (runtime := known) broken_stream healthy fresh = (Rejected (Error "stream reset"), fresh)
  /\ email (runtime := known) one_chunk healthy fresh = (Rejected (Error "not an email"), fresh).
Proof.
  split.
  - apply (proj1 (email_fails_before_send (runtime := known) broken_stream healthy fresh)).
    reflexivity.
  - apply (proj2 (email_fails_before_send (runtime := known) one_chunk healthy fresh));
      reflexivity.
Defined.

Lemma html_only_body_is_enqueued_witness :
  email (runtime := runtime_parsing (Fulfilled html_only)) one_chunk healthy fresh
  = Queue_send healthy
      (JSON_stringify [("type", JStr "email"); ("body", JStr "<p>Meeting at 3pm</p>")]) fresh.
Proof.
  apply (html_only_body_is_enqueued (runtime := runtime_parsing (Fulfilled html_only))
           one_chunk healthy fresh html_only "<p>Meeting at 3pm</p>"); reflexivity.
Defined.

Lemma prompt_lists_bodies_in_order_witness :
  nth_error (prompt (table_messages with_history)) 3
  = Some {| role := "system";
            content := ("Here are the emails for today: Meeting at 3pm"
                        ++ newline ++ "Lunch on Friday")%string |}.
Proof.
  apply (proj1 (prompt_lists_bodies_in_order (table_messages with_history)
                  ["Meeting at 3pm"; "Lunch on Friday"] eq_refl)).
Defined.

Lemma summary_route_does_not_catch_witness :
  fetch {| pathname := "/summary" |} store_down with_history
  = (Rejected (Error "D1_ERROR"),
     record_call (CallSelect SelectMessages (Rejected (Error "D1_ERROR"))) with_history)
  /\ fst (fetch {| pathname := "/" |} store_down with_history)
     = Fulfilled (Response_of_text "D1_ERROR").
Proof.
  split; [|reflexivity].
  apply (proj1 (summary_route_does_not_catch {| pathname := "/summary" |}
                  store_down with_history ltac:(discriminate))).
  reflexivity.
Defined.

Lemma stored_row_survives_indexing_failure_witness :
  let run := queue (runtime := knowing_null)
               {| messages := [message_of first_email; message_of second_email] |}
               embedding_down fresh in
  fst run = Rejected (Error "inference failed")
  /\ table_messages (snd run) = [new_row (JStr "Meeting at 3pm") fresh]
  /\ index_vectors (snd run) = [].
Proof.
  apply (proj1 (stored_row_survives_indexing_failure (runtime := knowing_null)
                  embedding_down [] (message_of first_email) [message_of second_email]
                  fresh fresh (JStr "Meeting at 3pm")
                  eq_refl first_is_email_here eq_refl)
           (Error "inference failed")).
  reflexivity.
Defined.

Lemma healthy_batch_stores_email_bodies_in_order_witness :
  let run := queue (runtime := knowing_null)
               {| messages := [message_of first_email; message_of text_message;
                               message_of second_email] |}
               healthy fresh in
  fst run = Fulfilled tt
  /\ map message (table_messages (snd run)) = [JStr "Meeting at 3pm"; JStr "Lunch on Friday"]
  /\ console (snd run) = [UnknownMessageType (JStr "sms")].
Proof.
  apply (healthy_batch_stores_email_bodies_in_order (runtime := knowing_null)
           {| messages := [message_of first_email; message_of text_message;
                           message_of second_email] |}
           healthy fresh healthy_always_answers known_are_loggable).
Defined.

Lemma redelivered_message_is_stored_twice_witness :
  exists first second,
    table_messages
      (snd (queue (runtime := knowing_null)
              {| messages := [message_of first_email; message_of first_email] |}
              healthy fresh))
    = table_messages fresh ++ [first; second]
    /\ message first = JStr "Meeting at 3pm"
    /\ message second = JStr "Meeting at 3pm"
    /\ id first <> id second.
Proof.
  apply (redelivered_message_is_stored_twice (runtime := knowing_null) healthy
           (message_of first_email) (JStr "Meeting at 3pm") fresh
           first_is_email_here healthy_always_answers).
Defined.

Lemma email_without_body_is_inserted_as_undefined_witness :
  queue_message (runtime := knowing_null) (message_of bodyless_email) healthy fresh
  = store_and_index healthy JUndefined fresh.
Proof.
  apply (proj1 (email_without_body_is_inserted_as_undefined (runtime := knowing_null)
                  healthy (message_of bodyless_email) fresh bodyless_email
                  eq_refl eq_refl
                  ltac:(intros v [H|[]]; discriminate))).
Defined.

Lemma null_payload_rejects_witness :
  exists msg,
    queue (runtime := knowing_null)
      {| messages := [] ++ null_message :: [message_of first_email] |} healthy fresh
    = (Rejected (TypeError msg), fresh).
Proof.
  apply (null_payload_rejects (runtime := knowing_null) healthy
           [] null_message [message_of first_email] fresh fresh eq_refl eq_refl).
Defined.

Lemma enqueued_email_is_stored_with_its_text_witness :
  queue_backlog (snd (email (runtime := knowing_null) one_chunk healthy fresh))
  = [JSON_stringify first_email]
  /\ table_messages
       (snd (queue (runtime := knowing_null)
               {| messages := [ {| body := JSON_stringify first_email |} ] |} healthy fresh))
     = [new_row (JStr "Meeting at 3pm") fresh].
Proof.
  destruct (enqueued_email_is_stored_with_its_text (runtime := knowing_null)
              one_chunk healthy healthy fresh plain_and_html "Meeting at 3pm"
              eq_refl eq_refl eq_refl ltac:(discriminate) eq_refl eq_refl)
    as [Hbacklog Hstored].
  split; [exact Hbacklog | exact (Hstored fresh eq_refl)].
Defined.

Lemma fulfilled_run_accounts_for_every_message_witness :
  exists added lines,
    table_messages
      (snd (queue (runtime := knowing_null)
              {| messages := [message_of first_email; message_of text_message] |}
              inserts_fail fresh))
    = table_messages fresh ++ added
    /\ console
         (snd (queue (runtime := knowing_null)
                 {| messages := [message_of first_email; message_of text_message] |}
                 inserts_fail fresh))
       = console fresh ++ lines
    /\ (List.length added + List.length lines = 2)%nat.
Proof.
  apply (fulfilled_run_accounts_for_every_message (runtime := knowing_null)
           {| messages := [message_of first_email; message_of text_message] |}
           inserts_fail fresh eq_refl).
Defined.

Lemma stored_message_is_indexed_under_its_id_witness :
  In {| vector_id := "1"; values := Some unit_vector |}
    (index_vectors
       (snd (queue (runtime := knowing_null)
               {| messages := [] ++ [message_of first_email] |} healthy fresh))).
Proof.
  apply (stored_message_is_indexed_under_its_id (runtime := knowing_null) healthy
           [] (message_of first_email) fresh fresh (JStr "Meeting at 3pm")
           {| data := [unit_vector] |}
           eq_refl first_is_email_here eq_refl eq_refl eq_refl).
Defined.

Lemma scheduled_posts_nothing_without_summary_witness :
  scheduled refusing store_down fresh []
  = (Rejected (Error "D1_ERROR"),
     record_call (CallSelect SelectMessages (Rejected (Error "D1_ERROR"))) fresh, [])
  /\ snd (scheduled refusing chat_down fresh []) = [].
Proof.
  split.
  - apply (proj1 (scheduled_posts_nothing_without_summary refusing store_down fresh [])).
    reflexivity.
  - apply (proj2 (scheduled_posts_nothing_without_summary refusing chat_down fresh [])
             (Error "inference failed")); reflexivity.
Defined.

Lemma scheduled_posts_summary_whatever_the_status_witness :
  snd (scheduled refusing healthy fresh []) = [(mail_url, mail_init "Nothing to summarize.")]
  /\ fst (fst (scheduled refusing healthy fresh [])) = Fulfilled tt
  /\ fst (fst (scheduled unreachable healthy fresh [])) = Rejected (TypeError "fetch failed").
Proof.
  destruct (scheduled_posts_summary_whatever_the_status refusing healthy fresh []
              {| response := "Nothing to summarize." |} eq_refl eq_refl)
    as [Hmade [Hdone _]].
  destruct (scheduled_posts_summary_whatever_the_status unreachable healthy fresh []
              {| response := "Nothing to summarize." |} eq_refl eq_refl)
    as [_ [_ Hdown]].
  split; [exact Hmade | split].
  - exact (Hdone {| status := 500 |} eq_refl).
  - exact (Hdown (TypeError "fetch failed") eq_refl).
Defined.

End FurtherScenarios.
